(** * AqLedLightning: the aquarium LED controller of [src/main.cpp]

    A shallow embedding of the firmware's global state, its HTTP handlers
    ([handle_getconf], [handle_setconf], [handle_overrule], [onFileRequest],
    [cb_logging]), its debug logger [dbgprint] and the lighting part of
    [loop], followed by the properties of the schedule, the override, the
    change-driven PWM writes and the diagnostic log. *)

From Stdlib Require Import ZArith List String Ascii Bool Lia.
Import ListNotations.

Local Open Scope Z_scope.

(** ** Fixed-width integers *)

Module Int.

(** Conversion to [uint8_t]: the value modulo 2^8. *)
Definition to_uint8 (z : Z) : Z := z mod 256.

(** Conversion to [uint32_t]: the value modulo 2^32. *)
Definition to_uint32 (z : Z) : Z := z mod 4294967296.

Definition LONG_MAX : Z := 2147483647.
Definition LONG_MIN : Z := -2147483648.

(** [strtol] saturates at the bounds of a 32-bit [long]. *)
Definition clamp_long (z : Z) : Z := Z.max LONG_MIN (Z.min LONG_MAX z).

End Int.

(** ** The Arduino [String] operations the handlers use *)

Module WString.

Definition NUL : ascii := Ascii.zero.
Definition LF : ascii := ascii_of_nat 10.

Definition isspace (c : ascii) : bool :=
  let n := nat_of_ascii c in
  (Nat.eqb n 32 || (Nat.leb 9 n && Nat.leb n 13))%bool.

Definition isdigit (c : ascii) : bool :=
  let n := nat_of_ascii c in (Nat.leb 48 n && Nat.leb n 57)%bool.

Definition digit_val (c : ascii) : Z := Z.of_nat (nat_of_ascii c) - 48.

Definition digit_char (d : Z) : ascii := ascii_of_nat (Z.to_nat (48 + d)).

Fixpoint skip_space (s : string) : string :=
  match s with
  | String c s' => if isspace c then skip_space s' else s
  | EmptyString => s
  end.

(** The digit loop of [strtol] in base 10: accumulate while digits last. *)
Fixpoint digits_val (acc : Z) (s : string) : Z :=
  match s with
  | String c s' =>
      if isdigit c then digits_val (acc * 10 + digit_val c) s' else acc
  | EmptyString => acc
  end.

(** [atol]: leading white space, an optional sign, decimal digits; the
    result saturates like [strtol]. *)
Definition atol (s : string) : Z :=
  match skip_space s with
  | String "-"%char s' => Int.clamp_long (- digits_val 0 s')
  | String "+"%char s' => Int.clamp_long (digits_val 0 s')
  | s' => Int.clamp_long (digits_val 0 s')
  end.

(** [String::toInt]. *)
Definition toInt (s : string) : Z := atol s.

(** [strstr]: offset of the first occurrence of [needle]. *)
Fixpoint strstr (needle s : string) : option nat :=
  if String.prefix needle s then Some O
  else match s with
       | EmptyString => None
       | String _ s' => option_map S (strstr needle s')
       end.

(** [String::indexOf (needle)]: -1 on an empty string or when absent. *)
Definition indexOf (needle s : string) : Z :=
  if Nat.eqb (String.length s) 0 then -1
  else match strstr needle s with
       | Some n => Z.of_nat n
       | None => -1
       end.

(** [String::substring (left)]: the text from offset [left] to the end,
    empty when [left] is past the end. *)
Fixpoint substring (left : nat) (s : string) : string :=
  match left, s with
  | O, _ => s
  | S n, String _ s' => substring n s'
  | S _, EmptyString => EmptyString
  end.

(** [String::endsWith]. *)
Definition endsWith (suffix s : string) : bool :=
  if Nat.ltb (String.length s) (String.length suffix) then false
  else String.eqb (substring (String.length s - String.length suffix) s)
                  suffix.

(** The first [n] characters. *)
Fixpoint take (n : nat) (s : string) : string :=
  match n, s with
  | S n', String c s' => String c (take n' s')
  | _, _ => EmptyString
  end.

(** The characters a C string holds: everything before the first NUL. *)
Fixpoint c_str (s : string) : string :=
  match s with
  | String c s' => if Ascii.eqb c NUL then EmptyString else String c (c_str s')
  | EmptyString => EmptyString
  end.

(** [utoa] in base 10, least significant digit first into [acc]; [fuel]
    bounds the number of digits. *)
Fixpoint utoa_aux (fuel : nat) (n : Z) (acc : string) : string :=
  match fuel with
  | O => acc
  | S f =>
      let acc' := String (digit_char (n mod 10)) acc in
      if n / 10 =? 0 then acc' else utoa_aux f (n / 10) acc'
  end.

(** Decimal text of a non-negative number (at most 10 digits, which covers
    every 32-bit value). *)
Definition utoa (n : Z) : string := utoa_aux 10 n EmptyString.

(** Decimal text of a signed number, as [ltoa] writes it. *)
Definition ltoa (n : Z) : string :=
  if n <? 0 then String "-"%char (utoa (- n)) else utoa n.

(** [String (unsigned char)]. *)
Definition of_uint8 (v : Z) : string := utoa v.

End WString.

(** ** TimeLib's break-down of a [time_t] *)

Module TimeLib.

(** [breakTime] works on the value cast to [uint32_t]. *)
Definition second (t : Z) : Z := Int.to_uint32 t mod 60.
Definition minute (t : Z) : Z := (Int.to_uint32 t / 60) mod 60.
Definition hour (t : Z) : Z := (Int.to_uint32 t / 3600) mod 24.

End TimeLib.

(** ** Global state *)

Definition DEBUG_BUFFER_SIZE : nat := 150.
Definition DEBUG : Z := 1.

(** The two PWM outputs. *)
Inductive pin : Type := LAMPA | LAMPB.

Definition pin_eqb (p q : pin) : bool :=
  match p, q with
  | LAMPA, LAMPA | LAMPB, LAMPB => true
  | _, _ => false
  end.

(** The function-local statics of [cb_logging].  [linebuf] holds the
    characters before the terminating NUL; [p_in] is the offset of the
    read pointer into it. *)
Record cb_statics : Type := mkCb {
  cb_i : nat;
  cb_nrl : nat;
  cb_linebuf : list ascii;
  cb_p_in : nat
}.

Record state : Type := mkState {
  dbglines : list string;
  intensityA : Z;
  intensityB : Z;
  ltime : Z;
  settings : list Z;          (* set_t.values, 48 bytes *)
  overrule : bool;
  ovA : Z;
  ovB : Z;
  eeprom : list Z;            (* the persistent bytes behind EEPROM *)
  time_ok : bool;             (* static of loop *)
  rfrltm : Z;                 (* static of loop *)
  cb : cb_statics
}.

Definition set_dbglines (v : list string) (s : state) : state :=
  mkState v (intensityA s) (intensityB s) (ltime s) (settings s) (overrule s)
          (ovA s) (ovB s) (eeprom s) (time_ok s) (rfrltm s) (cb s).
Definition set_intensityA (v : Z) (s : state) : state :=
  mkState (dbglines s) v (intensityB s) (ltime s) (settings s) (overrule s)
          (ovA s) (ovB s) (eeprom s) (time_ok s) (rfrltm s) (cb s).
Definition set_intensityB (v : Z) (s : state) : state :=
  mkState (dbglines s) (intensityA s) v (ltime s) (settings s) (overrule s)
          (ovA s) (ovB s) (eeprom s) (time_ok s) (rfrltm s) (cb s).
Definition set_ltime (v : Z) (s : state) : state :=
  mkState (dbglines s) (intensityA s) (intensityB s) v (settings s) (overrule s)
          (ovA s) (ovB s) (eeprom s) (time_ok s) (rfrltm s) (cb s).
Definition set_settings (v : list Z) (s : state) : state :=
  mkState (dbglines s) (intensityA s) (intensityB s) (ltime s) v (overrule s)
          (ovA s) (ovB s) (eeprom s) (time_ok s) (rfrltm s) (cb s).
Definition set_overrule (v : bool) (s : state) : state :=
  mkState (dbglines s) (intensityA s) (intensityB s) (ltime s) (settings s) v
          (ovA s) (ovB s) (eeprom s) (time_ok s) (rfrltm s) (cb s).
Definition set_ovA (v : Z) (s : state) : state :=
  mkState (dbglines s) (intensityA s) (intensityB s) (ltime s) (settings s)
          (overrule s) v (ovB s) (eeprom s) (time_ok s) (rfrltm s) (cb s).
Definition set_ovB (v : Z) (s : state) : state :=
  mkState (dbglines s) (intensityA s) (intensityB s) (ltime s) (settings s)
          (overrule s) (ovA s) v (eeprom s) (time_ok s) (rfrltm s) (cb s).
Definition set_eeprom (v : list Z) (s : state) : state :=
  mkState (dbglines s) (intensityA s) (intensityB s) (ltime s) (settings s)
          (overrule s) (ovA s) (ovB s) v (time_ok s) (rfrltm s) (cb s).
Definition set_time_ok (v : bool) (s : state) : state :=
  mkState (dbglines s) (intensityA s) (intensityB s) (ltime s) (settings s)
          (overrule s) (ovA s) (ovB s) (eeprom s) v (rfrltm s) (cb s).
Definition set_rfrltm (v : Z) (s : state) : state :=
  mkState (dbglines s) (intensityA s) (intensityB s) (ltime s) (settings s)
          (overrule s) (ovA s) (ovB s) (eeprom s) (time_ok s) v (cb s).
Definition set_cb (v : cb_statics) (s : state) : state :=
  mkState (dbglines s) (intensityA s) (intensityB s) (ltime s) (settings s)
          (overrule s) (ovA s) (ovB s) (eeprom s) (time_ok s) (rfrltm s) v.

(** The globals as their initialisers leave them ([settings], [ltime],
    [ovA], [ovB] and the statics are zero-initialised), over the given
    persistent bytes. *)
Definition power_on (rom : list Z) : state :=
  mkState [] 0 0 0 (repeat 0 48) false 0 0 rom false 0 (mkCb 0 0 [] 0).

(** [values[k] = v]. *)
Fixpoint store (k : nat) (v : Z) (a : list Z) : list Z :=
  match a, k with
  | [], _ => []
  | _ :: a', O => v :: a'
  | x :: a', S k' => x :: store k' v a'
  end.

(** [EEPROM.get (0, settings)] of [setup]: the first 48 persistent bytes. *)
Definition EEPROM_get (s : state) : state :=
  set_settings (firstn 48 (eeprom s) ++ repeat 0 (48 - List.length (eeprom s))) s.

(** [EEPROM.put (0, settings)] followed by [EEPROM.commit ()]. *)
Definition EEPROM_put_commit (s : state) : state :=
  set_eeprom (settings s ++ skipn (List.length (settings s)) (eeprom s)) s.

(** ** dbgprint *)

(** [vsnprintf (sbuf, size, ...)] keeps at most [size - 1] characters of the
    expanded text; [String (sbuf)] reads it as a C string. *)
Definition vsnprintf (size : nat) (text : string) : string :=
  WString.c_str (WString.take (size - 1) text).

(** [%02d] of a non-negative number. *)
Definition fmt02d (n : Z) : string :=
  if n <? 10 then String "0"%char (WString.utoa n) else WString.utoa n.

(** The ["%02d:%02d:%02d - "] prefix. *)
Definition tbuf (t : Z) : string :=
  (fmt02d (TimeLib.hour t) ++ ":" ++ fmt02d (TimeLib.minute t) ++ ":"
   ++ fmt02d (TimeLib.second t) ++ " - ")%string.

(** [dbgprint]; [text] is the expanded format, [heap] what
    [ESP.getFreeHeap ()] returns.  The serial port is not modelled. *)
Definition dbgprint (heap : Z) (text : string) (s : state) : state :=
  let sbuf := vsnprintf DEBUG_BUFFER_SIZE text in
  if DEBUG =? 0 then s
  else
    let dbgline := (tbuf (ltime s) ++ sbuf)%string in
    if 8000 <? heap then set_dbglines (dbglines s ++ [dbgline]) s
    else s.

(** [timer1sec]. *)
Definition timer1sec (s : state) : state := set_ltime (ltime s + 1) s.

(** ** HTTP handlers *)

(** What a handler hands to [request->send]. *)
Inductive response : Type :=
| Send (code : Z) (contentType body : string)
| SendFile (path contentType : string).

(** The reply loop of [handle_getconf], slots [i .. i+n-1]. *)
Fixpoint getconf_loop (n i : nat) (values : list Z) (reply : string) : string :=
  match n with
  | O => reply
  | S n' =>
      let reply1 := (reply ++ WString.of_uint8 (nth i values 0))%string in
      let reply2 := (reply1 ++ ",")%string in
      getconf_loop n' (S i) values reply2
  end.

Definition handle_getconf (heap : Z) (s : state) : state * response :=
  let s1 := dbgprint heap "HTTP getconf request" s in
  let reply := getconf_loop 48 0 (settings s1) EmptyString in
  (s1, Send 200 "text/plain" reply).

(** The table the get-schedule handler and the lighting loop read. *)
Definition snapshot (s : state) : list Z := settings s.

(** The parse loop of [handle_setconf], slots [i .. i+n-1]. *)
Fixpoint setconf_loop (n i : nat) (value : string) (values : list Z)
  : string * list Z :=
  match n with
  | O => (value, values)
  | S n' =>
      let values' := store i (Int.to_uint8 (WString.toInt value)) values in
      let inx := WString.indexOf "," value in
      let value' :=
        if 0 <? inx then WString.substring (Z.to_nat (inx + 1)) value
        else value in
      setconf_loop n' (S i) value' values'
  end.

(** [handle_setconf]; [value] is the value of request parameter 0. *)
Definition handle_setconf (heap : Z) (value : string) (s : state)
  : state * response :=
  let s1 := dbgprint heap "HTTP setconf request" s in
  let s2 := set_settings (snd (setconf_loop 48 0 value (settings s1))) s1 in
  let s3 := set_overrule false s2 in
  let s4 := EEPROM_put_commit s3 in
  (s4, Send 200 "text/plain" "SET command accepted").

(** [handle_overrule]; [value] is the value of request parameter 0. *)
Definition handle_overrule (heap : Z) (value : string) (s : state)
  : state * response :=
  let s1 := dbgprint heap "HTTP overrule request" s in
  let s2 := set_overrule true s1 in
  let s3 := set_ovA (Int.to_uint8 (WString.toInt value)) s2 in
  let inx := WString.indexOf "," value in
  let s4 :=
    if 0 <? inx then
      let value' := WString.substring (Z.to_nat (inx + 1)) value in
      set_ovB (Int.to_uint8 (WString.toInt value')) s3
    else s3 in
  (s4, Send 200 "text/plain" "Overrule command accepted").

(** [getContentType]. *)
Definition getContentType (filename : string) : string :=
  if WString.endsWith ".html" filename then "text/html"
  else if WString.endsWith ".png" filename then "image/png"
  else if WString.endsWith ".gif" filename then "image/gif"
  else if WString.endsWith ".jpg" filename then "image/jpeg"
  else if WString.endsWith ".ico" filename then "image/x-icon"
  else if WString.endsWith ".css" filename then "text/css"
  else if WString.endsWith ".zip" filename then "application/x-zip"
  else if WString.endsWith ".gz" filename then "application/x-gzip"
  else if WString.endsWith ".pw" filename then ""
  else "text/plain".

(** [LittleFS.exists] over the names of the stored files. *)
Definition LittleFS_exists (fs : list string) (path : string) : bool :=
  existsb (String.eqb path) fs.

(** The web server's [request->send (LittleFS, path, contentType)]: the
    file when [path] or its [.gz] twin is stored, else a bare 404. *)
Inductive file_response : Type :=
| Reply (code : Z) (contentType body : string)
| ReplyFile (path contentType : string)
| ReplyStatus (code : Z).

Definition send_file (fs : list string) (path contentType : string)
  : file_response :=
  if (LittleFS_exists fs path || LittleFS_exists fs (path ++ ".gz"))%bool
  then ReplyFile path contentType
  else ReplyStatus 404.

(** [onFileRequest]; [fnam] is [request->url ()]. *)
Definition onFileRequest (fs : list string) (heap : Z) (fnam : string)
  (s : state) : state * file_response :=
  let s1 := dbgprint heap ("onFileRequest received " ++ fnam) s in
  let ct := getContentType fnam in
  if String.eqb ct ""
  then (s1, Reply 404 "text/plain" "File not found")
  else (s1, send_file fs fnam ct).

Definition status_of (r : file_response) : Z :=
  match r with
  | Reply code _ _ => code
  | ReplyFile _ _ => 200
  | ReplyStatus code => code
  end.

(** ** cb_logging *)

(** [*p] for a pointer at offset [p] into a NUL-terminated buffer. *)
Definition deref (buf : list ascii) (p : nat) : ascii := nth p buf WString.NUL.

(** [strcpy (linebuf, s.c_str ())] then [strcat (linebuf, "\n")]. *)
Definition fill_linebuf (s : string) : list ascii :=
  list_ascii_of_string (WString.c_str s) ++ [WString.LF].

(** The [while (maxLen-- > 0)] loop; [out] is what [p_out] has written. *)
Fixpoint cb_while (maxLen : nat) (lines : list string) (c : cb_statics)
  (out : list ascii) : cb_statics * list ascii :=
  match maxLen with
  | O => (c, out)
  | S m =>
      let next :=
        if Ascii.eqb (deref (cb_linebuf c) (cb_p_in c)) WString.NUL then
          if Nat.eqb (cb_i c) (cb_nrl c) then None
          else
            let s := nth (cb_i c) lines EmptyString in
            Some (mkCb (S (cb_i c)) (cb_nrl c) (fill_linebuf s) O)
        else Some c in
      match next with
      | None => (c, out)
      | Some c1 =>
          let ch := deref (cb_linebuf c1) (cb_p_in c1) in
          cb_while m lines
            (mkCb (cb_i c1) (cb_nrl c1) (cb_linebuf c1) (S (cb_p_in c1)))
            (out ++ [ch])
      end
  end.

(** [cb_logging]: the new statics and the bytes put into [buffer]; the
    returned [len] is the length of those bytes. *)
Definition cb_logging (maxLen index : nat) (s : state) : state * list ascii :=
  let c0 :=
    if Nat.eqb index 0 then mkCb O (List.length (dbglines s)) [] O
    else cb s in
  let '(c1, out) := cb_while maxLen (dbglines s) c0 [] in
  (set_cb c1 s, out).

(** The chunked response calls the callback with the number of bytes it
    has been given so far; [sizes] are the buffer sizes it offers. *)
Fixpoint chunked (sizes : list nat) (filled : nat) (s : state)
  : state * list (list ascii) :=
  match sizes with
  | [] => (s, [])
  | m :: rest =>
      let '(s1, chunk) := cb_logging m filled s in
      let '(s2, chunks) := chunked rest (filled + List.length chunk) s1 in
      (s2, chunk :: chunks)
  end.

(** What one pass over the log has to deliver. *)
Definition log_stream (lines : list string) : list ascii :=
  List.concat (map (fun l => list_ascii_of_string l ++ [WString.LF]) lines).

(** ** The lighting part of loop *)

(** What one pass of [loop] reads from the platform: [millis ()],
    [timeClient.update ()] and [timeClient.getEpochTime ()]. *)
Record env : Type := mkEnv {
  millis : Z;
  ntp_update : bool;
  epochTime : Z
}.

Section Lighting.

(** [myTZ.toLocal]. *)
Variable toLocal : Z -> Z.

(** Lines 546-556: the refresh of [ltime]. *)
Definition refresh_time (e : env) (s : state) : state :=
  let millisnow := millis e in
  let s1 := set_time_ok (ntp_update e) s in
  if time_ok s1 then
    if rfrltm s1 <? millisnow then
      let s2 := set_rfrltm (Int.to_uint32 (millisnow * 1000 * 600)) s1 in
      set_ltime (toLocal (epochTime e)) s2
    else s1
  else s1.

(** Lines 557-567: [newA] and [newB]. *)
Definition targets (s : state) : Z * Z :=
  if overrule s then (ovA s, ovB s)
  else
    let inx := Int.to_uint8 (TimeLib.hour (ltime s)) in
    (nth (Z.to_nat (inx * 2)) (settings s) 0,
     nth (Z.to_nat (inx * 2 + 1)) (settings s) 0).

(** Lines 568-572 and 573-577; the list holds the [analogWrite] calls. *)
Definition update_A (newA : Z) (s : state) : state * list (pin * Z) :=
  if negb (newA =? intensityA s)
  then (set_intensityA newA s, [(LAMPA, newA)])
  else (s, []).

Definition update_B (newB : Z) (s : state) : state * list (pin * Z) :=
  if negb (newB =? intensityB s)
  then (set_intensityB newB s, [(LAMPB, newB)])
  else (s, []).

Definition loop (e : env) (s : state) : state * list (pin * Z) :=
  let s1 := refresh_time e s in
  let '(newA, newB) := targets s1 in
  let '(s2, wA) := update_A newA s1 in
  let '(s3, wB) := update_B newB s2 in
  (s3, wA ++ wB).

(** The targets a pass of [loop] computes. *)
Definition loop_targets (e : env) (s : state) : Z * Z :=
  targets (refresh_time e s).

Definition target_of (c : pin) (t : Z * Z) : Z :=
  match c with LAMPA => fst t | LAMPB => snd t end.

Definition channel (c : pin) : nat :=
  match c with LAMPA => O | LAMPB => S O end.

Definition intensity (c : pin) (s : state) : Z :=
  match c with LAMPA => intensityA s | LAMPB => intensityB s end.

(** What happens between two HTTP requests: passes of [loop] and firings
    of the one-second ticker. *)
Inductive event : Type :=
| Loop (e : env)
| Timer1sec.

Fixpoint run (evs : list event) (s : state) : state * list (pin * Z) :=
  match evs with
  | [] => (s, [])
  | Loop e :: rest =>
      let '(s1, w) := loop e s in
      let '(s2, ws) := run rest s1 in
      (s2, w ++ ws)
  | Timer1sec :: rest => run rest (timer1sec s)
  end.

(** The targets of the passes of [loop] in a run, in order. *)
Fixpoint run_targets (evs : list event) (s : state) : list (Z * Z) :=
  match evs with
  | [] => []
  | Loop e :: rest => loop_targets e s :: run_targets rest (fst (loop e s))
  | Timer1sec :: rest => run_targets rest (timer1sec s)
  end.

Definition writes_to (c : pin) (w : list (pin * Z)) : list Z :=
  map snd (filter (fun x => pin_eqb (fst x) c) w).

End Lighting.

(** ** Requests as a client writes them *)

(** Texts joined by commas: the body of a set-schedule or overrule
    request. *)
Fixpoint join_comma (l : list string) : string :=
  match l with
  | [] => EmptyString
  | [x] => x
  | x :: rest => (x ++ "," ++ join_comma rest)%string
  end.

Definition request_of (vs : list Z) : string :=
  join_comma (map WString.ltoa vs).

(** Every text followed by a comma: the format of the get-schedule reply. *)
Fixpoint comma_terminated (l : list string) : string :=
  match l with
  | [] => EmptyString
  | x :: rest => (x ++ "," ++ comma_terminated rest)%string
  end.

Definition in_long (v : Z) : Prop := Int.LONG_MIN <= v <= Int.LONG_MAX.

(** What the parse loop of [handle_setconf] does to [value] in one round. *)
Definition advance (value : string) : string :=
  let inx := WString.indexOf "," value in
  if 0 <? inx then WString.substring (Z.to_nat (inx + 1)) value else value.

(** The bytes the parse loop stores in [n] rounds. *)
Fixpoint parsed (n : nat) (value : string) : list Z :=
  match n with
  | O => []
  | S n' => Int.to_uint8 (WString.toInt value) :: parsed n' (advance value)
  end.

Fixpoint store_list (i : nat) (xs : list Z) (a : list Z) : list Z :=
  match xs with
  | [] => a
  | x :: xs' => store_list (S i) xs' (store i x a)
  end.

(** [n] values out of [v :: vs], the last one repeated when the list is
    short. *)
Fixpoint fill_last (n : nat) (v : Z) (vs : list Z) : list Z :=
  match n with
  | O => []
  | S n' =>
      v :: match vs with
           | [] => repeat v n'
           | v' :: vs' => fill_last n' v' vs'
           end
  end.

(** [n] values out of [vs], zeros when the list is short. *)
Fixpoint fill_zero (n : nat) (vs : list Z) : list Z :=
  match n with
  | O => []
  | S n' =>
      match vs with
      | [] => repeat 0 (S n')
      | v :: vs' => v :: fill_zero n' vs'
      end
  end.

(** ** The operations on the state *)

(** [handle_logging]: the log line; the chunks come from [cb_logging]. *)
Definition handle_logging (heap : Z) (s : state) : state :=
  dbgprint heap "HTTP logging request" s.

(** The things that happen to the state once [setup] is through. *)
Inductive action : Type :=
| DoLoop (e : env)
| DoTimer
| DoGetconf (heap : Z)
| DoSetconf (heap : Z) (value : string)
| DoOverrule (heap : Z) (value : string)
| DoFile (fs : list string) (heap : Z) (fnam : string)
| DoLogging (heap : Z)
| DoChunk (maxLen index : nat).

Definition step (toLocal : Z -> Z) (a : action) (s : state) : state :=
  match a with
  | DoLoop e => fst (loop toLocal e s)
  | DoTimer => timer1sec s
  | DoGetconf heap => fst (handle_getconf heap s)
  | DoSetconf heap value => fst (handle_setconf heap value s)
  | DoOverrule heap value => fst (handle_overrule heap value s)
  | DoFile fs heap fnam => fst (onFileRequest fs heap fnam s)
  | DoLogging heap => handle_logging heap s
  | DoChunk maxLen index => fst (cb_logging maxLen index s)
  end.

Definition steps (toLocal : Z -> Z) (l : list action) (s : state) : state :=
  fold_left (fun s a => step toLocal a s) l s.

(** ** Vocabulary of the statements *)

Section Vocabulary.

Import WString.

Fixpoint str_all (p : ascii -> bool) (s : string) : bool :=
  match s with
  | EmptyString => true
  | String c s' => (p c && str_all p s')%bool
  end.

Definition not_comma (c : ascii) : bool := negb (Ascii.eqb c ","%char).

Definition starts_nondigit (s : string) : Prop :=
  match s with
  | EmptyString => True
  | String c _ => isdigit c = false
  end.

Fixpoint last_char (s : string) : ascii :=
  match s with
  | EmptyString => NUL
  | String c EmptyString => c
  | String _ s' => last_char s'
  end.

(** One of the extensions [getContentType] names. *)
Definition known_extension (filename : string) : bool :=
  (endsWith ".html" filename || endsWith ".png" filename
   || endsWith ".gif" filename || endsWith ".jpg" filename
   || endsWith ".ico" filename || endsWith ".css" filename
   || endsWith ".zip" filename || endsWith ".gz" filename
   || endsWith ".pw" filename)%bool.

Definition not_nul (c : ascii) : bool := negb (Ascii.eqb c NUL).

(** A stored line is a C string that fits [linebuf] with its line break
    and terminator. *)
Definition line_ok (l : string) : Prop :=
  str_all not_nul l = true
  /\ (String.length l + 2 <= DEBUG_BUFFER_SIZE + 20)%nat.

(** The statics are consistent with the log [lines]. *)
Definition cb_ok (lines : list string) (c : cb_statics) : Prop :=
  Forall (fun ch => ch <> NUL) (cb_linebuf c)
  /\ (cb_p_in c <= List.length (cb_linebuf c))%nat
  /\ (cb_i c <= cb_nrl c)%nat
  /\ (cb_nrl c <= List.length lines)%nat.

(** What the callback has still to deliver. *)
Definition remaining (lines : list string) (c : cb_statics) : list ascii :=
  skipn (cb_p_in c) (cb_linebuf c)
  ++ log_stream (firstn (cb_nrl c - cb_i c) (skipn (cb_i c) lines)).

(** A text cut into pieces of the offered sizes. *)
Fixpoint slices (sizes : list nat) (l : list ascii) : list (list ascii) :=
  match sizes with
  | [] => []
  | m :: rest => firstn m l :: slices rest (skipn m l)
  end.

End Vocabulary.

(** ** Example states and requests *)

(** A time zone for the examples: UTC+1. *)
Definition cet (utc : Z) : Z := utc + 3600.

Definition day_profile : list Z :=
  [0; 0; 0; 0; 0; 0; 0; 0; 0; 0; 0; 0; 10; 5; 30; 15; 60; 30; 80; 40;
   100; 50; 100; 50; 100; 50; 100; 50; 100; 50; 100; 50; 100; 50; 100; 50;
   80; 40; 60; 30; 80; 40; 30; 15; 10; 5; 0; 0].

Definition wide_profile : list Z :=
  [256; 300; -1; 2147483647; -2147483648; 255; 100; 101; 0; 0; 0; 0;
   0; 0; 0; 0; 0; 0; 0; 0; 0; 0; 0; 0; 0; 0; 0; 0; 0; 0; 0; 0; 0; 0; 0; 0;
   0; 0; 0; 0; 0; 0; 0; 0; 0; 0; 0; 1000].

(** Evening of the example day: 80 and 40 percent in hour 20. *)
Definition evening : state :=
  set_ltime (20 * 3600 + 15 * 60) (set_settings day_profile (power_on [])).

Definition overruled : state :=
  fst (handle_overrule 9000 "5,5" evening).

(** A device that has never had the time: the table read from the
    persistent block asks for 50 and 40 percent in hour 0. *)
Definition never_synced : state :=
  EEPROM_get (power_on (50 :: 40 :: repeat 0 510)).

(** A log of two lines. *)
Definition two_lines : state :=
  steps cet [DoGetconf 9000; DoSetconf 9000 "1"] (power_on []).

(** ** Start-up and the remaining handlers *)

(** A 32-bit value read as [int], as [%d] prints it. *)
Definition to_int32 (z : Z) : Z :=
  let u := Int.to_uint32 z in
  if u <? 2147483648 then u else u - 4294967296.

(** [handle_test]; [heap] is what [ESP.getFreeHeap ()] returns for the
    reply and [heap'] what it returns inside [dbgprint].  The reply holds
    no conversion, so [dbgprint (reply)] logs it as it is. *)
Definition handle_test (heap heap' : Z) (s : state) : state * response :=
  let reply := ("Free memory is " ++ WString.ltoa (to_int32 heap))%string in
  (dbgprint heap' reply s, Send 200 "text/plain" reply).

(** [handle_reset]: [ESP.reset ()] restarts the device; the globals get
    their initial values again and the persistent bytes stay. *)
Definition handle_reset (s : state) : state := power_on (eeprom s).

(** The padding of [printf]: [%wd] and [%ws] fill on the left, [%-ws] on
    the right, and neither shortens the text. *)
Fixpoint spaces (n : nat) : string :=
  match n with
  | O => EmptyString
  | S n' => String " "%char (spaces n')
  end.

Definition pad_left (w : nat) (t : string) : string :=
  (spaces (w - String.length t) ++ t)%string.

Definition pad_right (w : nat) (t : string) : string :=
  (t ++ spaces (w - String.length t))%string.

(** The encryption types, with the values line 123 of the source names. *)
Definition ENC_TYPE_TKIP : Z := 2.
Definition ENC_TYPE_CCMP : Z := 4.
Definition ENC_TYPE_WEP : Z := 5.
Definition ENC_TYPE_NONE : Z := 7.
Definition ENC_TYPE_AUTO : Z := 8.

(** [getEncryptionType]. *)
Definition getEncryptionType (thisType : Z) : string :=
  if thisType =? ENC_TYPE_WEP then "WEP "
  else if thisType =? ENC_TYPE_TKIP then "WPA "
  else if thisType =? ENC_TYPE_CCMP then "WPA2"
  else if thisType =? ENC_TYPE_NONE then "None"
  else if thisType =? ENC_TYPE_AUTO then "Auto"
  else "????".

(** One entry of a network scan: [WiFi.SSID (i)], [WiFi.RSSI (i)] and
    [WiFi.encryptionType (i)]. *)
Record network : Type := mkNet {
  net_ssid : string;
  net_rssi : Z;
  net_enc : Z
}.

(** The file that holds the password of a network:
    [String ("/") + ssid + String (".pw")]. *)
Definition pw_path (ssid : string) : string := ("/" ++ ssid ++ ".pw")%string.

(** The [for] loop of [listNetworks] from entry [i] on; [heap k] is the
    free heap at the [k]-th call of [dbgprint] in [listNetworks]. *)
Fixpoint scan_loop (fs : list string) (heap : nat -> Z) (nets : list network)
  (i : nat) (maxsig : Z) (ssid : string) (s : state)
  : state * (Z * string) :=
  match nets with
  | [] => (s, (maxsig, ssid))
  | n :: rest =>
      let path := pw_path (net_ssid n) in
      let newstrength := net_rssi n in
      let found := LittleFS_exists fs path in
      let acceptable := if found then "Acceptable"%string else EmptyString in
      let better := (found && (maxsig <? newstrength))%bool in
      let maxsig' := if better then newstrength else maxsig in
      let ssid' := if better then net_ssid n else ssid in
      let line :=
        (pad_left 2 (WString.ltoa (Z.of_nat i + 1)) ++ " - "
         ++ pad_right 25 (WString.c_str (net_ssid n)) ++ " Signal: "
         ++ pad_left 3 (WString.ltoa (net_rssi n)) ++ " dBm Encryption "
         ++ pad_left 4 (getEncryptionType (net_enc n)) ++ "  "
         ++ acceptable)%string in
      scan_loop fs heap rest (S i) maxsig' ssid' (dbgprint (heap (2 + i)%nat) line s)
  end.

(** [listNetworks]; [numSsid] is what [WiFi.scanNetworks ()] returns and
    [nets] the entries of the scan; [ssid] is the global of that name. *)
Definition listNetworks (fs : list string) (heap : nat -> Z) (numSsid : Z)
  (nets : list network) (ssid : string) (s : state) : state * string :=
  let s1 := dbgprint (heap 0%nat) "Scan Networks" s in
  if numSsid =? -1
  then (dbgprint (heap 1%nat) "Couldn't get a wifi connection" s1, ssid)
  else
    let s2 :=
      dbgprint (heap 1%nat)
        ("Number of available networks: " ++ WString.ltoa numSsid) s1 in
    let seen := firstn (Z.to_nat numSsid) nets in
    let '(s3, (_, ssid')) := scan_loop fs heap seen 0 (-1000) ssid s2 in
    let s4 :=
      dbgprint (heap (2 + List.length seen)%nat)
        "--------------------------------------" s3 in
    let s5 :=
      dbgprint (heap (3 + List.length seen)%nat)
        ("Selected network: " ++ pad_right 25 (WString.c_str ssid')) s4 in
    (s5, ssid').

(** The content of a stored file, the empty text when there is none (a
    read from a file that did not open returns nothing). *)
Fixpoint file_content (files : list (string * string)) (path : string)
  : string :=
  match files with
  | [] => EmptyString
  | (name, content) :: rest =>
      if String.eqb path name then content else file_content rest path
  end.

(** [readStringUntil (terminator)]: the characters before the first
    [terminator], or all of them. *)
Fixpoint readStringUntil (terminator : ascii) (content : string) : string :=
  match content with
  | EmptyString => EmptyString
  | String c rest =>
      if Ascii.eqb c terminator then EmptyString
      else String c (readStringUntil terminator rest)
  end.

(** The backward loop of [String::trim]. *)
Fixpoint trim_right (s : string) : string :=
  match s with
  | EmptyString => EmptyString
  | String c s' =>
      match trim_right s' with
      | EmptyString => if WString.isspace c then EmptyString else String c EmptyString
      | t => String c t
      end
  end.

(** [String::trim]: white space off both ends. *)
Definition trim (s : string) : string := trim_right (WString.skip_space s).

(** The password [connectwifi] reads for [ssid]. *)
Definition wifi_password (files : list (string * string)) (ssid : string)
  : string :=
  trim (readStringUntil WString.LF (file_content files (pw_path ssid))).

(** [connectwifi]: the new state and the two arguments of [WiFi.begin];
    [connected] tells whether [WiFi.waitForConnectResult ()] returned
    [WL_CONNECTED], [ip] is [WiFi.localIP ()], and [heap k] the free heap at
    the [k]-th call of [dbgprint]. *)
Definition connectwifi (files : list (string * string)) (heap : nat -> Z)
  (connected : bool) (ip : Z * Z * Z * Z) (ssid : string) (s : state)
  : state * (string * string) :=
  let pw := wifi_password files ssid in
  let begin_args := (WString.c_str ssid, WString.c_str pw) in
  let s1 := dbgprint (heap 0%nat) ("Try WiFi " ++ WString.c_str ssid) s in
  if negb connected
  then (dbgprint (heap 1%nat) "WiFi Failed!" s1, begin_args)
  else
    let '(a, b, c, d) := ip in
    (dbgprint (heap 1%nat)
       ("IP = " ++ WString.ltoa a ++ "." ++ WString.ltoa b ++ "."
        ++ WString.ltoa c ++ "." ++ WString.ltoa d) s1,
     begin_args).

(** What [setup] reads from the platform. *)
Record boot_env : Type := mkBoot {
  fs_total : Z;                         (* fs_info.totalBytes *)
  fs_used : Z;                          (* fs_info.usedBytes *)
  dir_entries : list (string * Z);      (* dir.fileName (), dir.fileSize () *)
  fs_files : list (string * string);    (* the stored files, path and content *)
  scan_count : Z;                       (* WiFi.scanNetworks () *)
  scan_nets : list network;
  wifi_connected : bool;
  wifi_ip : Z * Z * Z * Z;
  heap_setup : nat -> Z;                (* free heap at the prints of setup *)
  heap_scan : nat -> Z;                 (* ... of listNetworks *)
  heap_wifi : nat -> Z                  (* ... of connectwifi *)
}.

(** The directory listing of [setup]; [k] counts the prints. *)
Fixpoint list_dir (heap : nat -> Z) (entries : list (string * Z)) (k : nat)
  (s : state) : state * nat :=
  match entries with
  | [] => (s, k)
  | (filename, size) :: rest =>
      if size =? 0 then list_dir heap rest k s
      else
        let line :=
          (pad_right 32 (WString.c_str filename) ++ " - "
           ++ pad_left 6 (WString.ltoa size))%string in
        list_dir heap rest (S k) (dbgprint (heap k) line s)
  end.

(** [setup], as far as it touches the state: the new state, the global
    [ssid] and the arguments of [WiFi.begin]. *)
Definition setup (b : boot_env) (ssid : string) (s : state)
  : state * (string * (string * string)) :=
  let s1 := EEPROM_get s in
  let s2 := dbgprint (heap_setup b 0%nat) "Starting AqLedVerl..." s1 in
  let s3 :=
    dbgprint (heap_setup b 1%nat) "Version Wed, 28 Jul 2021 07:12:00 GMT" s2 in
  let s4 :=
    dbgprint (heap_setup b 2%nat)
      ("FS Total " ++ WString.ltoa (fs_total b) ++ ", used "
       ++ WString.ltoa (fs_used b)) s3 in
  let '(s5, k) := list_dir (heap_setup b) (dir_entries b) 3 s4 in
  let '(s6, ssid') :=
    listNetworks (map fst (fs_files b)) (heap_scan b) (scan_count b)
      (scan_nets b) ssid s5 in
  let '(s7, begin_args) :=
    connectwifi (fs_files b) (heap_wifi b) (wifi_connected b) (wifi_ip b)
      ssid' s6 in
  let s8 := dbgprint (heap_setup b k) "HTTP-server started on port 80" s7 in
  (s8, (ssid', begin_args)).

(** A restart: the globals initialised over the persistent bytes, then
    [setup]; the global [ssid] starts empty. *)
Definition restart (b : boot_env) (s : state)
  : state * (string * (string * string)) :=
  setup b EmptyString (handle_reset s).

(** ** More vocabulary *)

(** Decimal text of a non-negative number of any size. *)
Definition utoa_any (n : Z) : string :=
  WString.utoa_aux (S (Z.to_nat (Z.log2 n))) n EmptyString.

(** Decimal text of a number of any size. *)
Definition dec (v : Z) : string :=
  if v <? 0 then String "-"%char (utoa_any (- v)) else utoa_any v.

(** A request of numbers of any size, separated by commas. *)
Definition request_any (vs : list Z) : string := join_comma (map dec vs).

(** The byte a [uint8_t] gets from [toInt] of the decimal text of [v]: the
    number saturated to the range of a [long], then modulo 256. *)
Definition stored_byte (v : Z) : Z := Int.to_uint8 (Int.clamp_long v).

Definition is_setconf (a : action) : bool :=
  match a with DoSetconf _ _ => true | _ => false end.

Definition is_overrule (a : action) : bool :=
  match a with DoOverrule _ _ => true | _ => false end.

Definition is_chunk (a : action) : bool :=
  match a with DoChunk _ _ => true | _ => false end.

(** A pass over the log with other things happening between the calls:
    each call comes with its buffer size and the actions that follow it. *)
Fixpoint chunked_live (toLocal : Z -> Z) (calls : list (nat * list action))
  (filled : nat) (s : state) : state * list (list ascii) :=
  match calls with
  | [] => (s, [])
  | (m, acts) :: rest =>
      let '(s1, chunk) := cb_logging m filled s in
      let s2 := steps toLocal acts s1 in
      let '(s3, chunks) :=
        chunked_live toLocal rest (filled + List.length chunk) s2 in
      (s3, chunk :: chunks)
  end.

(** A call of the log pass that no call of another pass follows. *)
Definition quiet (call : nat * list action) : bool :=
  negb (existsb is_chunk (snd call)).

Definition is_byte (v : Z) : Prop := 0 <= v <= 255.

(** The table has its 48 bytes, and the persistent block and the other
    [uint8_t] globals hold bytes. *)
Definition bytes_ok (s : state) : Prop :=
  List.length (settings s) = 48%nat
  /\ Forall is_byte (settings s)
  /\ Forall is_byte (eeprom s)
  /\ is_byte (ovA s) /\ is_byte (ovB s)
  /\ is_byte (intensityA s) /\ is_byte (intensityB s).

(** A network whose password file is stored. *)
Definition acceptable (fs : list string) (n : network) : Prop :=
  LittleFS_exists fs (pw_path (net_ssid n)) = true.

(** [s'] is [s] with lines of [dbgprint] added to the log and nothing
    else changed. *)
Definition logs (s s' : state) : Prop :=
  exists new,
    s' = set_dbglines (dbglines s ++ new) s /\ Forall line_ok new.

(** The text a handler sends. *)
Definition body_of (r : response) : string :=
  match r with
  | Send _ _ body => body
  | SendFile _ _ => EmptyString
  end.

Definition no_line_feed (c : ascii) : bool :=
  negb (Ascii.eqb c WString.LF).

(** White space that does not end a line. *)
Definition is_blank (c : ascii) : bool :=
  (WString.isspace c && no_line_feed c)%bool.

(** Example data for the start-up. *)
Definition home_files : list (string * string) :=
  [("/index.html", "<html></html>");
   ("/home.pw", String " "%char ("secret" ++ String (ascii_of_nat 13)
                  (String WString.LF "second line")));
   ("/cafe.pw", "latte")]%string.

Definition seen_nets : list network :=
  [mkNet "cafe" (-70) 4; mkNet "street" (-40) 7; mkNet "home" (-55) 4;
   mkNet "cafe" (-55) 4]%string.

Definition home_boot : boot_env :=
  mkBoot 1000000 20000 [("index.html", 13); ("empty", 0)]%string home_files
    4 seen_nets true (192, 168, 1, 20)
    (fun _ => 30000) (fun _ => 30000) (fun _ => 30000).

(** * Properties *)

(** ** Texts *)

Section Texts.

Import WString.

Lemma append_assoc (a b c : string) :
  ((a ++ b) ++ c = a ++ (b ++ c))%string.
Proof. induction a as [|x a IH]; simpl; [reflexivity | now rewrite IH]. Qed.

Lemma append_nil_r (a : string) : (a ++ "")%string = a.
Proof. induction a as [|x a IH]; simpl; [reflexivity | now rewrite IH]. Qed.

Lemma length_append (a b : string) :
  String.length (a ++ b) = (String.length a + String.length b)%nat.
Proof. induction a as [|x a IH]; simpl; [reflexivity | now rewrite IH]. Qed.

Lemma digit_char_ok (d : Z) :
  0 <= d <= 9 -> isdigit (digit_char d) = true /\ digit_val (digit_char d) = d.
Proof.
  intros H.
  assert (d = 0 \/ d = 1 \/ d = 2 \/ d = 3 \/ d = 4 \/ d = 5 \/ d = 6
          \/ d = 7 \/ d = 8 \/ d = 9) as E by lia.
  repeat destruct E as [E|E]; subst d; split; reflexivity.
Qed.

Lemma isdigit_not_comma (c : ascii) : isdigit c = true -> not_comma c = true.
Proof.
  unfold isdigit, not_comma. intros H.
  destruct (Ascii.eqb_spec c ","%char) as [->|]; [discriminate H | reflexivity].
Qed.

Lemma isdigit_not_space (c : ascii) : isdigit c = true -> isspace c = false.
Proof.
  unfold isdigit, isspace. intros H.
  apply andb_prop in H as [H1 H2].
  apply Nat.leb_le in H1. apply Nat.leb_le in H2.
  apply orb_false_iff; split.
  - apply Nat.eqb_neq. lia.
  - apply andb_false_iff. right. apply Nat.leb_gt. lia.
Qed.

Lemma str_all_append (p : ascii -> bool) (a b : string) :
  str_all p (a ++ b) = (str_all p a && str_all p b)%bool.
Proof.
  induction a as [|x a IH]; simpl; [reflexivity|].
  now rewrite IH, andb_assoc.
Qed.

Lemma str_all_impl (p q : ascii -> bool) (s : string) :
  (forall c, p c = true -> q c = true) ->
  str_all p s = true -> str_all q s = true.
Proof.
  intros Hpq. induction s as [|c s IH]; simpl; [reflexivity|].
  intros H. apply andb_prop in H as [H1 H2].
  now rewrite (Hpq _ H1), (IH H2).
Qed.

(** *** utoa writes digits, and the digit loop reads them back *)

Lemma utoa_aux_acc (fuel : nat) (n : Z) (acc : string) :
  utoa_aux fuel n acc = (utoa_aux fuel n "" ++ acc)%string.
Proof.
  revert n acc. induction fuel as [|f IH]; intros n acc; simpl; [reflexivity|].
  destruct (n / 10 =? 0); [reflexivity|].
  rewrite IH. rewrite (IH _ (String _ "")).
  now rewrite append_assoc.
Qed.

Lemma utoa_aux_digits (fuel : nat) (n : Z) :
  str_all isdigit (utoa_aux fuel n "") = true.
Proof.
  revert n. induction fuel as [|f IH]; intros n; simpl; [reflexivity|].
  assert (isdigit (digit_char (n mod 10)) = true) as Hd
    by (apply digit_char_ok; pose proof (Z.mod_pos_bound n 10); lia).
  destruct (n / 10 =? 0).
  - simpl. now rewrite Hd.
  - rewrite utoa_aux_acc, str_all_append, IH. simpl. now rewrite Hd.
Qed.

Lemma utoa_aux_nonempty (fuel : nat) (n : Z) :
  (0 < String.length (utoa_aux (S fuel) n ""))%nat.
Proof.
  simpl. destruct (n / 10 =? 0); [simpl; lia|].
  rewrite utoa_aux_acc, length_append. simpl. lia.
Qed.

Lemma digits_val_utoa_aux (fuel : nat) :
  forall n, 0 <= n < 10 ^ Z.of_nat fuel ->
  exists k, forall a tail,
    digits_val a (utoa_aux fuel n "" ++ tail) = digits_val (a * 10 ^ k + n) tail
    /\ 0 <= k.
Proof.
  induction fuel as [|f IH]; intros n Hn.
  - exists 0. intros a tail. simpl in *. split; [f_equal; lia | lia].
  - assert (0 <= n mod 10 <= 9) as Hm by (pose proof (Z.mod_pos_bound n 10); lia).
    destruct (digit_char_ok _ Hm) as [Hd Hv].
    simpl utoa_aux. destruct (Z.eqb_spec (n / 10) 0) as [E|E].
    + exists 1. intros a tail. simpl. rewrite Hd, Hv. split; [|lia].
      f_equal. pose proof (Z.div_mod n 10). lia.
    + assert (0 <= n / 10 < 10 ^ Z.of_nat f) as Hq.
      { split; [apply Z.div_pos; lia|].
        apply Z.div_lt_upper_bound; [lia|].
        rewrite Nat2Z.inj_succ, Z.pow_succ_r in Hn; lia. }
      destruct (IH _ Hq) as [k Hk]. exists (k + 1). intros a tail.
      rewrite utoa_aux_acc, append_assoc.
      destruct (Hk a (String (digit_char (n mod 10)) "" ++ tail)%string) as [-> Hk0].
      simpl. rewrite Hd, Hv. split; [|lia].
      f_equal. rewrite Z.pow_add_r by lia.
      pose proof (Z.div_mod n 10). lia.
Qed.

Lemma digits_val_stop (a : Z) (s : string) :
  starts_nondigit s -> digits_val a s = a.
Proof. destruct s as [|c s]; simpl; [reflexivity | now intros ->]. Qed.

Lemma digits_val_utoa (n : Z) (tail : string) :
  0 <= n <= 4294967295 -> starts_nondigit tail ->
  digits_val 0 (utoa n ++ tail) = n.
Proof.
  intros Hn Ht. unfold utoa.
  destruct (digits_val_utoa_aux 10 n) as [k Hk]; [simpl; lia|].
  destruct (Hk 0 tail) as [-> _]. now rewrite digits_val_stop.
Qed.

(** *** toInt reads back what ltoa writes *)

Lemma atol_unsigned (c : ascii) (s : string) :
  isdigit c = true ->
  atol (String c s) = Int.clamp_long (digits_val 0 (String c s)).
Proof.
  intros H. unfold atol. cbn [skip_space].
  rewrite (isdigit_not_space _ H).
  destruct c as [b0 b1 b2 b3 b4 b5 b6 b7].
  destruct b0, b1, b2, b3, b4, b5, b6, b7;
    try discriminate H; reflexivity.
Qed.

Lemma clamp_long_id (v : Z) : in_long v -> Int.clamp_long v = v.
Proof. unfold in_long, Int.clamp_long, Int.LONG_MIN, Int.LONG_MAX. lia. Qed.

Lemma toInt_ltoa (v : Z) (tail : string) :
  in_long v -> starts_nondigit tail -> toInt (ltoa v ++ tail) = v.
Proof.
  intros Hv Ht. unfold toInt, ltoa.
  assert (Hr := Hv). unfold in_long, Int.LONG_MIN, Int.LONG_MAX in Hr.
  destruct (Z.ltb_spec v 0) as [Hneg|Hpos].
  - unfold atol. cbn [append skip_space]. change (isspace "-") with false.
    cbv iota. rewrite digits_val_utoa by (auto; lia).
    rewrite Z.opp_involutive. now apply clamp_long_id.
  - pose proof (utoa_aux_nonempty 9 v) as Hlen.
    pose proof (utoa_aux_digits 10 v) as Hdig.
    pose proof (digits_val_utoa v tail) as Hval.
    unfold utoa in *. destruct (utoa_aux 10 v "") as [|c s]; [simpl in Hlen; lia|].
    simpl in Hdig. apply andb_prop in Hdig as [Hc _].
    cbn [append] in *. rewrite (atol_unsigned _ _ Hc).
    rewrite Hval by (auto; lia). now apply clamp_long_id.
Qed.

Lemma ltoa_not_comma (v : Z) : str_all not_comma (ltoa v) = true.
Proof.
  assert (forall n, str_all not_comma (utoa n) = true) as H.
  { intros n. apply (str_all_impl isdigit).
    - exact isdigit_not_comma.
    - apply utoa_aux_digits. }
  unfold ltoa. destruct (v <? 0); [|apply H].
  cbn [str_all]. rewrite H. reflexivity.
Qed.

Lemma ltoa_nonempty (v : Z) : (0 < String.length (ltoa v))%nat.
Proof.
  unfold ltoa, utoa. destruct (v <? 0); [simpl; lia|].
  apply utoa_aux_nonempty.
Qed.

(** *** indexOf and substring on comma-separated text *)

Lemma prefix_empty (s : string) : String.prefix "" s = true.
Proof. destruct s; reflexivity. Qed.

Lemma strstr_comma_here (s : string) : strstr "," (String "," s) = Some O.
Proof. simpl. now rewrite prefix_empty. Qed.

Lemma strstr_comma_skip (c : ascii) (s : string) :
  not_comma c = true ->
  strstr "," (String c s) = option_map S (strstr "," s).
Proof.
  unfold not_comma. intros H. cbn [strstr String.prefix].
  destruct (ascii_dec "," c) as [<-|_]; [discriminate H | reflexivity].
Qed.

Lemma strstr_comma_app (ds rest : string) :
  str_all not_comma ds = true ->
  strstr "," (ds ++ String "," rest) = Some (String.length ds).
Proof.
  induction ds as [|c ds IH]; intros H.
  - apply strstr_comma_here.
  - simpl in H. apply andb_prop in H as [Hc Hds].
    cbn [append String.length]. rewrite (strstr_comma_skip _ _ Hc), (IH Hds).
    reflexivity.
Qed.

Lemma strstr_comma_none (ds : string) :
  str_all not_comma ds = true -> strstr "," ds = None.
Proof.
  induction ds as [|c ds IH]; intros H; [reflexivity|].
  simpl in H. apply andb_prop in H as [Hc Hds].
  now rewrite (strstr_comma_skip _ _ Hc), (IH Hds).
Qed.

Lemma substring_app (ds rest : string) (c : ascii) :
  substring (S (String.length ds)) (ds ++ String c rest) = rest.
Proof. induction ds as [|d ds IH]; [reflexivity | exact IH]. Qed.

Lemma advance_sep (ds rest : string) :
  str_all not_comma ds = true -> (0 < String.length ds)%nat ->
  advance (ds ++ "," ++ rest) = rest.
Proof.
  intros H Hlen. unfold advance, indexOf.
  cbn [append]. rewrite length_append, (strstr_comma_app _ _ H).
  cbn [String.length].
  replace (Nat.eqb (String.length ds + S (String.length rest)) 0) with false
    by (symmetry; apply Nat.eqb_neq; lia).
  replace (0 <? Z.of_nat (String.length ds)) with true
    by (symmetry; apply Z.ltb_lt; lia).
  replace (Z.to_nat (Z.of_nat (String.length ds) + 1))
    with (S (String.length ds)) by lia.
  apply substring_app.
Qed.

Lemma indexOf_sep (ds rest : string) :
  str_all not_comma ds = true ->
  indexOf "," (ds ++ "," ++ rest) = Z.of_nat (String.length ds).
Proof.
  intros H. unfold indexOf. cbn [append].
  rewrite length_append, (strstr_comma_app _ _ H). cbn [String.length].
  replace (Nat.eqb (String.length ds + S (String.length rest)) 0) with false
    by (symmetry; apply Nat.eqb_neq; lia).
  reflexivity.
Qed.

Lemma advance_last (ds : string) :
  str_all not_comma ds = true -> advance ds = ds.
Proof.
  intros H. unfold advance, indexOf. rewrite (strstr_comma_none _ H).
  destruct (Nat.eqb (String.length ds) 0); reflexivity.
Qed.

(** *** the parse loop on a request *)

Lemma parsed_single (n : nat) (v : Z) :
  in_long v -> parsed n (ltoa v) = repeat (Int.to_uint8 v) n.
Proof.
  intros Hv. induction n as [|n IH]; [reflexivity|].
  cbn [parsed repeat]. rewrite (advance_last _ (ltoa_not_comma v)), IH.
  rewrite <- (append_nil_r (ltoa v)) at 1.
  now rewrite toInt_ltoa by (auto; exact I).
Qed.

Lemma parsed_cons (n : nat) (v : Z) (rest : string) :
  in_long v ->
  parsed (S n) (ltoa v ++ "," ++ rest) = Int.to_uint8 v :: parsed n rest.
Proof.
  intros Hv. cbn [parsed].
  rewrite toInt_ltoa by (auto; reflexivity).
  now rewrite advance_sep by auto using ltoa_not_comma, ltoa_nonempty.
Qed.

Lemma map_repeat {A B} (f : A -> B) (x : A) (n : nat) :
  map f (repeat x n) = repeat (f x) n.
Proof. induction n as [|n IH]; simpl; [reflexivity | now rewrite IH]. Qed.

Lemma parsed_request (vs : list Z) :
  forall n v, Forall in_long (v :: vs) ->
  parsed n (request_of (v :: vs)) = map Int.to_uint8 (fill_last n v vs).
Proof.
  induction vs as [|v' vs IH]; intros n v H; inversion_clear H as [|? ? Hv Hvs].
  - change (request_of [v]) with (ltoa v). rewrite (parsed_single _ _ Hv).
    destruct n as [|n]; [reflexivity|]. simpl. now rewrite map_repeat.
  - destruct n as [|n]; [reflexivity|].
    change (request_of (v :: v' :: vs))
      with (ltoa v ++ "," ++ request_of (v' :: vs))%string.
    rewrite (parsed_cons _ _ _ Hv), (IH n v' Hvs). reflexivity.
Qed.

Lemma parsed_empty (n : nat) : parsed n "" = repeat 0 n.
Proof. induction n as [|n IH]; [reflexivity|]. cbn [parsed repeat]. now rewrite <- IH. Qed.

Lemma parsed_comma_terminated (vs : list Z) :
  forall n, Forall in_long vs ->
  parsed n (comma_terminated (map ltoa vs)) = map Int.to_uint8 (fill_zero n vs).
Proof.
  induction vs as [|v vs IH]; intros n H.
  - cbn [map comma_terminated]. rewrite parsed_empty.
    destruct n; [reflexivity|]. cbn [fill_zero]. now rewrite map_repeat.
  - inversion_clear H as [|? ? Hv Hvs]. destruct n as [|n]; [reflexivity|].
    cbn [map comma_terminated fill_zero].
    now rewrite (parsed_cons _ _ _ Hv), (IH n Hvs).
Qed.

End Texts.

(** ** The schedule table *)

Section Table.

Lemma settings_dbgprint (heap : Z) (text : string) (s : state) :
  settings (dbgprint heap text s) = settings s.
Proof. unfold dbgprint. destruct (DEBUG =? 0), (8000 <? heap); reflexivity. Qed.

Lemma store_app (pre post : list Z) (x y : Z) :
  store (List.length pre) x (pre ++ y :: post) = pre ++ x :: post.
Proof. induction pre as [|p pre IH]; simpl; [reflexivity | now rewrite IH]. Qed.

Lemma store_list_app (xs : list Z) :
  forall pre a post, List.length xs = List.length a ->
  store_list (List.length pre) xs (pre ++ a ++ post) = pre ++ xs ++ post.
Proof.
  induction xs as [|x xs IH]; intros pre a post Hlen.
  - destruct a; [reflexivity | discriminate Hlen].
  - destruct a as [|y a]; [discriminate Hlen|]. injection Hlen as Hlen.
    cbn [store_list app]. rewrite store_app.
    specialize (IH (pre ++ [x]) a post Hlen).
    rewrite length_app, Nat.add_1_r, <- !app_assoc in IH. exact IH.
Qed.

Lemma store_list_all (xs a : list Z) :
  List.length xs = List.length a -> store_list 0 xs a = xs.
Proof.
  intros H. pose proof (store_list_app xs [] a [] H) as E.
  now rewrite !app_nil_r in E.
Qed.

Lemma setconf_loop_parsed (n : nat) :
  forall i value a,
  snd (setconf_loop n i value a) = store_list i (parsed n value) a.
Proof.
  induction n as [|n IH]; intros i value a; [reflexivity|].
  cbn [setconf_loop parsed store_list]. apply IH.
Qed.

Lemma length_parsed (n : nat) :
  forall value, List.length (parsed n value) = n.
Proof. induction n as [|n IH]; intros value; simpl; [reflexivity | now rewrite IH]. Qed.

Lemma nth_parsed (n : nat) :
  forall i value, (i < n)%nat ->
  nth i (parsed n value) 0
  = Int.to_uint8 (WString.toInt (Nat.iter i advance value)).
Proof.
  induction n as [|n IH]; intros i value Hi; [lia|].
  destruct i as [|i]; [reflexivity|].
  cbn [parsed nth]. rewrite IH by lia. now rewrite Nat.iter_succ_r.
Qed.

(** The table after [handle_setconf] is what the parse loop read. *)
Lemma settings_setconf (heap : Z) (value : string) (s : state) :
  List.length (settings s) = 48%nat ->
  settings (fst (handle_setconf heap value s)) = parsed 48 value.
Proof.
  intros H. unfold handle_setconf, EEPROM_put_commit.
  cbn [fst settings set_eeprom set_overrule set_settings].
  rewrite setconf_loop_parsed. apply store_list_all.
  now rewrite length_parsed, settings_dbgprint.
Qed.

Lemma overrule_setconf (heap : Z) (value : string) (s : state) :
  overrule (fst (handle_setconf heap value s)) = false.
Proof. reflexivity. Qed.

Lemma firstn_length_app {A} (a b : list A) :
  firstn (List.length a) (a ++ b) = a.
Proof. induction a as [|x a IH]; simpl; [reflexivity | now rewrite IH]. Qed.

Lemma eeprom_put_settings (n : nat) (x : state) :
  List.length (settings x) = n ->
  firstn n (eeprom (EEPROM_put_commit x)) = settings (EEPROM_put_commit x).
Proof.
  intros <-. unfold EEPROM_put_commit. cbn [eeprom settings set_eeprom].
  apply firstn_length_app.
Qed.

Lemma eeprom_setconf (heap : Z) (value : string) (s : state) :
  List.length (settings s) = 48%nat ->
  firstn 48 (eeprom (fst (handle_setconf heap value s)))
  = settings (fst (handle_setconf heap value s)).
Proof.
  intros H.
  assert (List.length (snd (setconf_loop 48 0 value
                              (settings (dbgprint heap "HTTP setconf request" s))))
          = 48%nat) as L.
  { rewrite setconf_loop_parsed, store_list_all; rewrite length_parsed;
      [reflexivity | now rewrite settings_dbgprint]. }
  unfold handle_setconf. cbn [fst]. apply eeprom_put_settings. exact L.
Qed.

Lemma last_default (l : list Z) :
  forall x d d', last (x :: l) d = last (x :: l) d'.
Proof.
  induction l as [|y l IH]; intros x d d'; [reflexivity|].
  change (last (y :: l) d = last (y :: l) d'). apply IH.
Qed.

Lemma last_cons (l : list Z) (x d : Z) : last (x :: l) d = last l x.
Proof.
  destruct l as [|y l]; [reflexivity|].
  change (last (y :: l) d = last (y :: l) x). apply last_default.
Qed.

Lemma fill_last_short (n : nat) :
  forall v vs, (S (List.length vs) <= n)%nat ->
  fill_last n v vs
  = (v :: vs) ++ repeat (last vs v) (n - S (List.length vs)).
Proof.
  induction n as [|n IH]; intros v vs H; [lia|].
  destruct vs as [|v' vs].
  - cbn [fill_last List.length last app Nat.sub]. now rewrite Nat.sub_0_r.
  - cbn [fill_last]. cbn [List.length] in H. rewrite IH by lia.
    rewrite last_cons. reflexivity.
Qed.

Lemma fill_zero_short (n : nat) :
  forall vs, (List.length vs <= n)%nat ->
  fill_zero n vs = vs ++ repeat 0 (n - List.length vs).
Proof.
  induction n as [|n IH]; intros vs H.
  - destruct vs; [reflexivity | simpl in H; lia].
  - destruct vs as [|v vs]; [reflexivity|].
    cbn [fill_zero]. cbn [List.length] in H. rewrite IH by lia. reflexivity.
Qed.

(** The table a request of comma-separated numbers leaves. *)
Lemma parsed_request_of (vs : list Z) :
  Forall in_long vs -> (List.length vs <= 48)%nat ->
  parsed 48 (request_of vs)
  = map Int.to_uint8 (vs ++ repeat (last vs 0) (48 - List.length vs)).
Proof.
  intros H Hlen. destruct vs as [|v vs].
  - change (request_of []) with EmptyString. rewrite parsed_empty. reflexivity.
  - rewrite (parsed_request vs 48 v H).
    rewrite fill_last_short by exact Hlen.
    rewrite last_cons. reflexivity.
Qed.

Lemma map_nth_seq (d : Z) (l : list Z) :
  forall pre,
  map (fun k => nth k (pre ++ l) d) (seq (List.length pre) (List.length l)) = l.
Proof.
  induction l as [|x l IH]; intros pre; [reflexivity|].
  cbn [List.length seq map]. rewrite nth_middle. f_equal.
  specialize (IH (pre ++ [x])).
  rewrite length_app, Nat.add_1_r, <- app_assoc in IH. exact IH.
Qed.

Lemma getconf_loop_seq (n : nat) :
  forall i values reply,
  getconf_loop n i values reply
  = (reply ++ comma_terminated
                (map (fun k => WString.of_uint8 (nth k values 0)) (seq i n)))%string.
Proof.
  induction n as [|n IH]; intros i values reply.
  - simpl. now rewrite append_nil_r.
  - cbn [getconf_loop seq map comma_terminated]. rewrite IH.
    now rewrite !append_assoc.
Qed.

Lemma getconf_reply (values : list Z) :
  List.length values = 48%nat ->
  getconf_loop 48 0 values "" = comma_terminated (map WString.of_uint8 values).
Proof.
  intros H. rewrite getconf_loop_seq. cbn [append].
  rewrite <- (map_map (fun k => nth k values 0) WString.of_uint8).
  pose proof (map_nth_seq 0 values []) as E. cbn [app List.length] in E.
  rewrite H in E. now rewrite E.
Qed.

Lemma settings_getconf (heap : Z) (s : state) :
  settings (fst (handle_getconf heap s)) = settings s.
Proof. unfold handle_getconf. cbn [fst]. apply settings_dbgprint. Qed.

End Table.

(** ** dbgprint and the log *)

Section Log.

Lemma dbglines_dbgprint (heap : Z) (text : string) (s : state) :
  dbglines (dbgprint heap text s)
  = if 8000 <? heap
    then dbglines s ++ [(tbuf (ltime s) ++ vsnprintf DEBUG_BUFFER_SIZE text)%string]
    else dbglines s.
Proof. unfold dbgprint. cbn. destruct (8000 <? heap); reflexivity. Qed.

End Log.

(** C2: for 48 values, each in 0..100, a set-schedule request carrying them
    leaves exactly these values in the table, and the get-schedule handler
    then reads and reports them slot for slot. *)
Theorem replace_snapshot_roundtrip (heap heap' : Z) (S : list Z) (s : state) :
  List.length (settings s) = 48%nat ->
  List.length S = 48%nat ->
  Forall (fun v => 0 <= v <= 100) S ->
  snapshot (fst (handle_setconf heap (request_of S) s)) = S
  /\ snapshot (fst (handle_getconf heap'
                      (fst (handle_setconf heap (request_of S) s)))) = S
  /\ snd (handle_getconf heap' (fst (handle_setconf heap (request_of S) s)))
     = Send 200 "text/plain" (comma_terminated (map WString.utoa S)).
Proof.
  intros Hs HS Hr.
  assert (settings (fst (handle_setconf heap (request_of S) s)) = S) as E.
  { rewrite settings_setconf by exact Hs.
    rewrite parsed_request_of.
    - rewrite HS. cbn [Nat.sub repeat]. rewrite app_nil_r.
      clear HS. induction Hr as [|v S Hv _ IH]; [reflexivity|].
      cbn [map]. rewrite IH. f_equal. unfold Int.to_uint8.
      apply Z.mod_small. lia.
    - eapply Forall_impl; [|exact Hr]. cbv beta.
      unfold in_long, Int.LONG_MIN, Int.LONG_MAX. lia.
    - lia. }
  unfold snapshot. rewrite settings_getconf. repeat split; try exact E.
  unfold handle_getconf. cbn [snd]. rewrite settings_dbgprint, E.
  rewrite getconf_reply by exact HS. reflexivity.
Qed.

Lemma replace_snapshot_roundtrip_witness :
  snapshot (fst (handle_setconf 9000 (request_of day_profile)
                   (power_on (repeat 0 512%nat)))) = day_profile
  /\ snd (handle_getconf 9000
            (fst (handle_setconf 9000 (request_of day_profile)
                    (power_on (repeat 0 512%nat)))))
     = Send 200 "text/plain" (comma_terminated (map WString.utoa day_profile)).
Proof.
  destruct (replace_snapshot_roundtrip 9000 9000 day_profile
              (power_on (repeat 0 512%nat))) as [H1 [_ H3]].
  - reflexivity.
  - reflexivity.
  - unfold day_profile. repeat constructor; discriminate.
  - split; [exact H1 | exact H3].
Defined.

(** C10: every slot receives the number [toInt] read for it, reduced
    modulo 256; so a request carrying 48 numbers of the [long] range
    round-trips through the table only up to that reduction. *)
Theorem setconf_stores_mod_256 (heap : Z) (value : string) (s : state) :
  List.length (settings s) = 48%nat ->
  (forall i, (i < 48)%nat ->
     nth i (snapshot (fst (handle_setconf heap value s))) 0
     = WString.toInt (Nat.iter i advance value) mod 256)
  /\ (forall vs, value = request_of vs -> List.length vs = 48%nat ->
      Forall in_long vs ->
      snapshot (fst (handle_setconf heap value s))
      = map (fun v => v mod 256) vs).
Proof.
  intros Hs. unfold snapshot. rewrite settings_setconf by exact Hs. split.
  - intros i Hi. now rewrite nth_parsed.
  - intros vs -> Hlen Hr. rewrite parsed_request_of by (auto; lia).
    rewrite Hlen. cbn [Nat.sub repeat]. now rewrite app_nil_r.
Qed.

Lemma setconf_stores_mod_256_witness :
  snapshot (fst (handle_setconf 9000 (request_of wide_profile)
                   (power_on (repeat 0 512%nat))))
  = [0; 44; 255; 255; 0; 255; 100; 101; 0; 0; 0; 0;
     0; 0; 0; 0; 0; 0; 0; 0; 0; 0; 0; 0; 0; 0; 0; 0; 0; 0; 0; 0; 0; 0; 0; 0;
     0; 0; 0; 0; 0; 0; 0; 0; 0; 0; 0; 232].
Proof.
  destruct (setconf_stores_mod_256 9000 (request_of wide_profile)
              (power_on (repeat 0 512%nat)) eq_refl) as [_ H].
  rewrite (H wide_profile eq_refl eq_refl).
  - reflexivity.
  - unfold wide_profile, in_long. repeat constructor; discriminate.
Defined.

(** ** Numbers of any size *)

Section AnyNumber.

Import WString.

Lemma utoa_any_fuel (n : Z) :
  0 <= n -> 0 <= n < 10 ^ Z.of_nat (S (Z.to_nat (Z.log2 n))).
Proof.
  intros Hn. split; [exact Hn|].
  pose proof (Z.log2_nonneg n) as Hl.
  rewrite Nat2Z.inj_succ, Z2Nat.id by exact Hl.
  destruct (Z.eq_dec n 0) as [->|Hne].
  - cbn. lia.
  - assert (n < 2 ^ Z.succ (Z.log2 n)) as H2 by (apply Z.log2_spec; lia).
    assert (2 ^ Z.succ (Z.log2 n) <= 10 ^ Z.succ (Z.log2 n)) as H10
      by (apply Z.pow_le_mono_l; lia).
    lia.
Qed.

Lemma digits_val_utoa_any (n : Z) (tail : string) :
  0 <= n -> starts_nondigit tail -> digits_val 0 (utoa_any n ++ tail) = n.
Proof.
  intros Hn Ht. unfold utoa_any.
  destruct (digits_val_utoa_aux _ n (utoa_any_fuel n Hn)) as [k Hk].
  destruct (Hk 0 tail) as [-> _]. now rewrite digits_val_stop.
Qed.

Lemma toInt_dec (v : Z) (tail : string) :
  starts_nondigit tail -> toInt (dec v ++ tail) = Int.clamp_long v.
Proof.
  intros Ht. unfold toInt, dec.
  destruct (Z.ltb_spec v 0) as [Hneg|Hpos].
  - unfold atol. cbn [append skip_space]. change (isspace "-") with false.
    cbv iota. rewrite digits_val_utoa_any by (auto; lia).
    now rewrite Z.opp_involutive.
  - pose proof (utoa_aux_nonempty (Z.to_nat (Z.log2 v)) v) as Hlen.
    pose proof (utoa_aux_digits (S (Z.to_nat (Z.log2 v))) v) as Hdig.
    pose proof (digits_val_utoa_any v tail Hpos Ht) as Hval.
    unfold utoa_any in *.
    destruct (utoa_aux (S (Z.to_nat (Z.log2 v))) v "") as [|c s];
      [simpl in Hlen; lia|].
    simpl in Hdig. apply andb_prop in Hdig as [Hc _].
    cbn [append] in *. rewrite (atol_unsigned _ _ Hc). now rewrite Hval.
Qed.

Lemma dec_not_comma (v : Z) : str_all not_comma (dec v) = true.
Proof.
  assert (forall n, str_all not_comma (utoa_any n) = true) as H.
  { intros n. apply (str_all_impl isdigit).
    - exact isdigit_not_comma.
    - apply utoa_aux_digits. }
  unfold dec. destruct (v <? 0); [|apply H].
  cbn [str_all]. rewrite H. reflexivity.
Qed.

Lemma dec_nonempty (v : Z) : (0 < String.length (dec v))%nat.
Proof.
  unfold dec, utoa_any. destruct (v <? 0); [simpl; lia|].
  apply utoa_aux_nonempty.
Qed.

Lemma stored_byte_in_long (v : Z) : in_long v -> stored_byte v = v mod 256.
Proof. intros H. unfold stored_byte. now rewrite clamp_long_id. Qed.

Lemma parsed_single_any (n : nat) (v : Z) :
  parsed n (dec v) = repeat (stored_byte v) n.
Proof.
  induction n as [|n IH]; [reflexivity|].
  cbn [parsed repeat]. rewrite (advance_last _ (dec_not_comma v)), IH.
  rewrite <- (append_nil_r (dec v)) at 1.
  now rewrite toInt_dec by exact I.
Qed.

Lemma parsed_cons_any (n : nat) (v : Z) (rest : string) :
  parsed (S n) (dec v ++ "," ++ rest) = stored_byte v :: parsed n rest.
Proof.
  cbn [parsed]. rewrite toInt_dec by reflexivity.
  now rewrite advance_sep by auto using dec_not_comma, dec_nonempty.
Qed.

Lemma parsed_request_any (vs : list Z) :
  forall n v,
  parsed n (request_any (v :: vs)) = map stored_byte (fill_last n v vs).
Proof.
  induction vs as [|v' vs IH]; intros n v.
  - change (request_any [v]) with (dec v). rewrite parsed_single_any.
    destruct n as [|n]; [reflexivity|]. simpl. now rewrite map_repeat.
  - destruct n as [|n]; [reflexivity|].
    change (request_any (v :: v' :: vs))
      with (dec v ++ "," ++ request_any (v' :: vs))%string.
    rewrite parsed_cons_any, (IH n v'). reflexivity.
Qed.

Lemma parsed_terminated_any (vs : list Z) :
  forall n tail,
  parsed n (comma_terminated (map dec vs) ++ tail)
  = map stored_byte (firstn n vs) ++ parsed (n - List.length vs) tail.
Proof.
  induction vs as [|v vs IH]; intros n tail.
  - cbn [map comma_terminated append List.length].
    now rewrite firstn_nil, Nat.sub_0_r.
  - destruct n as [|n]; [reflexivity|].
    cbn [map comma_terminated].
    replace ((dec v ++ "," ++ comma_terminated (map dec vs)) ++ tail)%string
      with (dec v ++ "," ++ (comma_terminated (map dec vs) ++ tail))%string
      by (now rewrite append_assoc).
    rewrite parsed_cons_any, (IH n tail). reflexivity.
Qed.

(** The table a request of numbers of any size leaves. *)
Lemma parsed_request_any_short (vs : list Z) :
  (List.length vs <= 48)%nat ->
  parsed 48 (request_any vs)
  = map stored_byte (vs ++ repeat (last vs 0) (48 - List.length vs)).
Proof.
  intros Hlen. destruct vs as [|v vs].
  - change (request_any []) with EmptyString. rewrite parsed_empty.
    cbn [app last List.length Nat.sub]. now rewrite map_repeat.
  - rewrite (parsed_request_any vs 48 v).
    rewrite fill_last_short by exact Hlen.
    rewrite last_cons. reflexivity.
Qed.

End AnyNumber.

(** C1, as the code has it: a request with fewer than 48 numbers is not
    refused.  The handler replies 200 "SET command accepted", stores for
    each number given the byte [toInt] yields for its text (the number
    saturated to the range of a [long], then modulo 256; for a number in
    that range the number modulo 256) in the leading slots, clears the
    override and writes the table to the persistent block.  The slots that are left get the byte of the last number given
    when the numbers are separated by commas (zeros for an empty request),
    and zeros when every number is followed by a comma. *)
Theorem setconf_short_request_accepted (heap : Z) (vs : list Z) (s : state) :
  List.length (settings s) = 48%nat ->
  (List.length vs < 48)%nat ->
  snd (handle_setconf heap (request_any vs) s)
  = Send 200 "text/plain" "SET command accepted"
  /\ settings (fst (handle_setconf heap (request_any vs) s))
     = map stored_byte (vs ++ repeat (last vs 0) (48 - List.length vs))
  /\ overrule (fst (handle_setconf heap (request_any vs) s)) = false
  /\ firstn 48 (eeprom (fst (handle_setconf heap (request_any vs) s)))
     = settings (fst (handle_setconf heap (request_any vs) s))
  /\ settings (fst (handle_setconf heap (comma_terminated (map dec vs)) s))
     = map stored_byte (vs ++ repeat 0 (48 - List.length vs))
  /\ (forall v, in_long v -> stored_byte v = v mod 256).
Proof.
  intros Hs Hlen.
  split; [reflexivity|]. split; [|split; [reflexivity|split; [|split]]].
  - rewrite settings_setconf by exact Hs. apply parsed_request_any_short. lia.
  - now apply eeprom_setconf.
  - rewrite settings_setconf by exact Hs.
    rewrite <- (append_nil_r (comma_terminated (map dec vs))).
    rewrite parsed_terminated_any, parsed_empty.
    rewrite firstn_all2 by lia. now rewrite map_app, map_repeat.
  - exact stored_byte_in_long.
Qed.

Lemma setconf_short_request_accepted_witness :
  settings
    (fst (handle_setconf 9000
            (request_any [1; 2; 300; -1; 3000000000; -3000000000; 10])
            (power_on (repeat 0 512%nat))))
  = [1; 2; 44; 255; 255; 0; 10] ++ repeat 10 41.
Proof.
  destruct (setconf_short_request_accepted 9000
              [1; 2; 300; -1; 3000000000; -3000000000; 10]
              (power_on (repeat 0 512%nat))) as [_ [H _]].
  - reflexivity.
  - cbn. lia.
  - rewrite H. reflexivity.
Defined.

(** C1 fails on the code: with the override active, a request of ten
    numbers is answered 200 "SET command accepted", and the table, the
    persistent block and the override all change. *)
Lemma setconf_ten_values_not_refused :
  let s := fst (handle_overrule 9000 "5,5"
                  (set_settings day_profile
                     (set_eeprom (day_profile ++ repeat 0 464)
                        (power_on [])))) in
  let s' := fst (handle_setconf 9000 "1,2,3,4,5,6,7,8,9,10" s) in
  snd (handle_setconf 9000 "1,2,3,4,5,6,7,8,9,10" s)
  = Send 200 "text/plain" "SET command accepted"
  /\ overrule s = true /\ overrule s' = false
  /\ settings s = day_profile
  /\ settings s' = [1; 2; 3; 4; 5; 6; 7; 8; 9; 10] ++ repeat 10 38
  /\ settings s' <> settings s
  /\ firstn 48 (eeprom s) = day_profile
  /\ firstn 48 (eeprom s') = [1; 2; 3; 4; 5; 6; 7; 8; 9; 10] ++ repeat 10 38
  /\ eeprom s' <> eeprom s.
Proof.
  vm_compute. repeat split; discriminate.
Qed.

(** ** The lighting loop *)

Section LightingFacts.

Variable toLocal : Z -> Z.

Ltac loop_cases :=
  unfold loop, loop_targets, update_A, update_B, targets, refresh_time;
  cbn [time_ok set_time_ok rfrltm overrule];
  repeat match goal with
         | |- context [if ?b then _ else _] => destruct b eqn:?
         end;
  cbn in *.

Lemma hour_range (t : Z) : 0 <= TimeLib.hour t <= 23.
Proof.
  unfold TimeLib.hour.
  pose proof (Z.mod_pos_bound (Int.to_uint32 t / 3600) 24). lia.
Qed.

Lemma refresh_time_keeps (e : env) (s : state) :
  settings (refresh_time toLocal e s) = settings s
  /\ overrule (refresh_time toLocal e s) = overrule s
  /\ ovA (refresh_time toLocal e s) = ovA s
  /\ ovB (refresh_time toLocal e s) = ovB s
  /\ intensityA (refresh_time toLocal e s) = intensityA s
  /\ intensityB (refresh_time toLocal e s) = intensityB s.
Proof.
  unfold refresh_time. cbn [time_ok set_time_ok rfrltm].
  destruct (ntp_update e), (rfrltm s <? millis e); repeat split.
Qed.

Lemma loop_keeps (e : env) (s : state) :
  settings (fst (loop toLocal e s)) = settings s
  /\ overrule (fst (loop toLocal e s)) = overrule s
  /\ ovA (fst (loop toLocal e s)) = ovA s
  /\ ovB (fst (loop toLocal e s)) = ovB s
  /\ dbglines (fst (loop toLocal e s)) = dbglines s
  /\ eeprom (fst (loop toLocal e s)) = eeprom s.
Proof. loop_cases; repeat split. Qed.

Lemma loop_ltime (e : env) (s : state) :
  ltime (fst (loop toLocal e s)) = ltime (refresh_time toLocal e s).
Proof. loop_cases; reflexivity. Qed.

(** After a pass each channel's remembered intensity is its target. *)
Lemma loop_intensity (e : env) (s : state) (c : pin) :
  intensity c (fst (loop toLocal e s))
  = target_of c (loop_targets toLocal e s).
Proof.
  destruct c; loop_cases;
    repeat match goal with
           | H : negb _ = false |- _ => apply negb_false_iff, Z.eqb_eq in H
           end; congruence.
Qed.

(** A pass writes a channel exactly when its target is new. *)
Lemma loop_writes (e : env) (s : state) (c : pin) :
  writes_to c (snd (loop toLocal e s))
  = if target_of c (loop_targets toLocal e s) =? intensity c s
    then []
    else [target_of c (loop_targets toLocal e s)].
Proof.
  destruct c; loop_cases;
    repeat match goal with
           | H : negb _ = true |- _ => apply negb_true_iff in H
           | H : negb _ = false |- _ => apply negb_false_iff in H
           end; congruence.
Qed.

Lemma writes_to_app (c : pin) (w1 w2 : list (pin * Z)) :
  writes_to c (w1 ++ w2) = writes_to c w1 ++ writes_to c w2.
Proof. unfold writes_to. now rewrite filter_app, map_app. Qed.

Lemma run_loop (e : env) (rest : list event) (s : state) :
  run toLocal (Loop e :: rest) s
  = (fst (run toLocal rest (fst (loop toLocal e s))),
     snd (loop toLocal e s) ++ snd (run toLocal rest (fst (loop toLocal e s)))).
Proof.
  cbn [run]. destruct (loop toLocal e s) as [s1 w].
  cbn [fst snd]. destruct (run toLocal rest s1). reflexivity.
Qed.

Lemma run_keeps (evs : list event) :
  forall s,
  settings (fst (run toLocal evs s)) = settings s
  /\ overrule (fst (run toLocal evs s)) = overrule s
  /\ ovA (fst (run toLocal evs s)) = ovA s
  /\ ovB (fst (run toLocal evs s)) = ovB s
  /\ dbglines (fst (run toLocal evs s)) = dbglines s.
Proof.
  induction evs as [|[e|] evs IH]; intros s.
  - repeat split.
  - rewrite run_loop. cbn [fst].
    destruct (IH (fst (loop toLocal e s))) as (-> & -> & -> & -> & ->).
    destruct (loop_keeps e s) as (-> & -> & -> & -> & -> & _).
    repeat split.
  - cbn [run]. destruct (IH (timer1sec s)) as (-> & -> & -> & -> & ->).
    repeat split.
Qed.

Lemma targets_override (s : state) :
  overrule s = true -> targets s = (ovA s, ovB s).
Proof. unfold targets. now intros ->. Qed.

Lemma loop_targets_override (e : env) (s : state) :
  overrule s = true -> loop_targets toLocal e s = (ovA s, ovB s).
Proof.
  intros H. unfold loop_targets.
  destruct (refresh_time_keeps e s) as (_ & Ho & Ha & Hb & _).
  rewrite targets_override by congruence. congruence.
Qed.

Lemma run_targets_override (evs : list event) :
  forall s, overrule s = true ->
  Forall (eq (ovA s, ovB s)) (run_targets toLocal evs s).
Proof.
  induction evs as [|[e|] evs IH]; intros s H; cbn [run_targets].
  - constructor.
  - constructor; [now rewrite loop_targets_override|].
    destruct (loop_keeps e s) as (_ & Ho & Ha & Hb & _).
    rewrite <- Ha, <- Hb. apply IH. congruence.
  - apply (IH (timer1sec s)). exact H.
Qed.

(** With the override off, the targets are the two table entries of the
    hour. *)
Lemma targets_schedule (s : state) (c : pin) :
  List.length (settings s) = 48%nat -> overrule s = false ->
  nth_error (settings s) (Z.to_nat (TimeLib.hour (ltime s)) * 2 + channel c)
  = Some (target_of c (targets s)).
Proof.
  intros Hlen Ho. unfold targets. rewrite Ho.
  pose proof (hour_range (ltime s)) as Hh.
  unfold Int.to_uint8. rewrite Z.mod_small by lia.
  destruct c; cbn [channel target_of fst snd].
  - replace (Z.to_nat (TimeLib.hour (ltime s)) * 2 + 0)%nat
      with (Z.to_nat (TimeLib.hour (ltime s) * 2)) by lia.
    apply nth_error_nth'. lia.
  - replace (Z.to_nat (TimeLib.hour (ltime s)) * 2 + 1)%nat
      with (Z.to_nat (TimeLib.hour (ltime s) * 2 + 1)) by lia.
    apply nth_error_nth'. lia.
Qed.

Lemma run_constant_targets (c : pin) (t : Z * Z) (evs : list event) :
  forall s, Forall (eq t) (run_targets toLocal evs s) ->
  writes_to c (snd (run toLocal evs s))
  = match run_targets toLocal evs s with
    | [] => []
    | _ :: _ => if target_of c t =? intensity c s then [] else [target_of c t]
    end.
Proof.
  induction evs as [|[e|] evs IH]; intros s H.
  - reflexivity.
  - cbn [run_targets] in *. inversion_clear H as [|? ? Ht Hrest].
    rewrite run_loop. cbn [snd]. rewrite writes_to_app, loop_writes, <- Ht.
    rewrite (IH _ Hrest), loop_intensity, <- Ht, Z.eqb_refl.
    destruct (run_targets toLocal evs (fst (loop toLocal e s)));
      now rewrite app_nil_r.
  - cbn [run run_targets] in *. rewrite (IH _ H).
    destruct c; reflexivity.
Qed.

End LightingFacts.

(** An overrule request ["a,b"] switches the override on with the two
    numbers, each modulo 256. *)
Lemma overrule_request (heap a b : Z) (s : state) :
  in_long a -> in_long b ->
  overrule (fst (handle_overrule heap (request_of [a; b]) s)) = true
  /\ ovA (fst (handle_overrule heap (request_of [a; b]) s)) = Int.to_uint8 a
  /\ ovB (fst (handle_overrule heap (request_of [a; b]) s)) = Int.to_uint8 b.
Proof.
  intros Ha Hb.
  change (request_of [a; b]) with (WString.ltoa a ++ "," ++ WString.ltoa b)%string.
  pose proof (advance_sep (WString.ltoa a) (WString.ltoa b)
                (ltoa_not_comma a) (ltoa_nonempty a)) as Hadv.
  unfold advance in Hadv. unfold handle_overrule. cbn [fst].
  rewrite indexOf_sep in * by apply ltoa_not_comma.
  pose proof (ltoa_nonempty a) as Hlen.
  replace (0 <? Z.of_nat (String.length (WString.ltoa a))) with true in *
    by (symmetry; apply Z.ltb_lt; lia).
  rewrite Hadv. cbn [overrule ovA ovB set_ovB set_ovA set_overrule].
  rewrite <- (append_nil_r (WString.ltoa b)) at 2.
  rewrite !toInt_ltoa by (auto; reflexivity).
  repeat split.
Qed.

(** C3: with the override off, when the local time the pass works with
    falls in hour [h], the target of channel [c] is the table entry at
    index [h*2+c] (A = 0, B = 1), and the pass leaves the channel at that
    value. *)
Theorem schedule_target_at_hour (toLocal : Z -> Z) (e : env) (s : state)
  (h : Z) (c : pin) :
  List.length (settings s) = 48%nat ->
  overrule s = false ->
  TimeLib.hour (ltime (refresh_time toLocal e s)) = h ->
  0 <= h <= 23
  /\ nth_error (snapshot s) (Z.to_nat h * 2 + channel c)
     = Some (target_of c (loop_targets toLocal e s))
  /\ intensity c (fst (loop toLocal e s))
     = target_of c (loop_targets toLocal e s).
Proof.
  intros Hlen Ho Hh.
  destruct (refresh_time_keeps toLocal e s) as (Hs & Hov & _).
  split; [subst h; apply hour_range|]. split; [|apply loop_intensity].
  unfold snapshot, loop_targets. rewrite <- Hs, <- Hh.
  apply targets_schedule; congruence.
Qed.

Lemma schedule_target_at_hour_witness :
  nth_error (snapshot evening) 41 = Some 40
  /\ target_of LAMPB (loop_targets cet (mkEnv 1000 false 0) evening) = 40
  /\ intensity LAMPB (fst (loop cet (mkEnv 1000 false 0) evening)) = 40.
Proof.
  destruct (schedule_target_at_hour cet (mkEnv 1000 false 0) evening 20 LAMPB)
    as (_ & H1 & H2).
  - reflexivity.
  - reflexivity.
  - reflexivity.
  - rewrite H2. change (Z.to_nat 20 * 2 + channel LAMPB)%nat with 41%nat in H1.
    split; [exact H1|]. split; reflexivity.
Defined.

(** C4: while [overrule] is set with the pair ([ovA], [ovB]), every pass of
    [loop] in any run has exactly that pair as its targets, whatever the
    table holds, and the run leaves the override set; a pass of [loop]
    after any such run leaves both channels at that pair and writes a
    channel exactly when the pair's value differs from the intensity
    remembered for it.  [handle_setconf] then clears the override, and the
    next pass takes both targets from the table entries of its hour, leaves
    both channels at these entries and writes the channels that differ. *)
Theorem override_supersedes_schedule (toLocal : Z -> Z) (evs : list event)
  (heap : Z) (value : string) (e e' : env) (s : state) :
  List.length (settings s) = 48%nat ->
  overrule s = true ->
  Forall (eq (ovA s, ovB s)) (run_targets toLocal evs s)
  /\ overrule (fst (run toLocal evs s)) = true
  /\ (forall c,
        intensity c (fst (loop toLocal e' (fst (run toLocal evs s))))
        = target_of c (ovA s, ovB s)
        /\ writes_to c (snd (loop toLocal e' (fst (run toLocal evs s))))
           = (if target_of c (ovA s, ovB s)
                 =? intensity c (fst (run toLocal evs s))
              then []
              else [target_of c (ovA s, ovB s)]))
  /\ overrule (fst (handle_setconf heap value (fst (run toLocal evs s)))) = false
  /\ forall c,
       nth_error
         (snapshot (fst (handle_setconf heap value (fst (run toLocal evs s)))))
         (Z.to_nat
            (TimeLib.hour
               (ltime (refresh_time toLocal e
                         (fst (handle_setconf heap value
                                 (fst (run toLocal evs s)))))))
          * 2 + channel c)
       = Some (target_of c
                 (loop_targets toLocal e
                    (fst (handle_setconf heap value (fst (run toLocal evs s))))))
       /\ intensity c
            (fst (loop toLocal e
                    (fst (handle_setconf heap value (fst (run toLocal evs s))))))
          = target_of c
              (loop_targets toLocal e
                 (fst (handle_setconf heap value (fst (run toLocal evs s)))))
       /\ writes_to c
            (snd (loop toLocal e
                    (fst (handle_setconf heap value (fst (run toLocal evs s))))))
          = (if target_of c
                  (loop_targets toLocal e
                     (fst (handle_setconf heap value (fst (run toLocal evs s)))))
                =? intensity c
                     (fst (handle_setconf heap value (fst (run toLocal evs s))))
             then []
             else [target_of c
                     (loop_targets toLocal e
                        (fst (handle_setconf heap value
                                (fst (run toLocal evs s)))))]).
Proof.
  intros Hlen Ho.
  destruct (run_keeps toLocal evs s) as (Hs & Hov & Ha & Hb & _).
  split; [now apply run_targets_override|].
  split; [congruence|].
  split.
  { intros c.
    rewrite loop_intensity, loop_writes.
    rewrite loop_targets_override by congruence.
    rewrite Ha, Hb. split; reflexivity. }
  split; [reflexivity|].
  intros c.
  set (s2 := fst (handle_setconf heap value (fst (run toLocal evs s)))).
  assert (List.length (settings s2) = 48%nat) as Hlen2.
  { unfold s2. rewrite settings_setconf by congruence. apply length_parsed. }
  destruct (refresh_time_keeps toLocal e s2) as (Hs2 & Hov2 & _).
  split; [|split; [apply loop_intensity | apply loop_writes]].
  unfold snapshot, loop_targets. rewrite <- Hs2.
  apply targets_schedule; [congruence|].
  rewrite Hov2. reflexivity.
Qed.

Lemma override_supersedes_schedule_witness :
  run_targets cet [Loop (mkEnv 1000 false 0); Timer1sec; Loop (mkEnv 2000 false 0)]
    overruled = [(5, 5); (5, 5)]
  /\ (intensityA (fst (loop cet (mkEnv 2500 false 0) overruled)),
      intensityB (fst (loop cet (mkEnv 2500 false 0) overruled))) = (5, 5)
  /\ snd (loop cet (mkEnv 2500 false 0) overruled) = [(LAMPA, 5); (LAMPB, 5)]
  /\ (intensityA
        (fst (loop cet (mkEnv 3000 false 0)
                (fst (handle_setconf 9000 (request_of day_profile) overruled)))),
      intensityB
        (fst (loop cet (mkEnv 3000 false 0)
                (fst (handle_setconf 9000 (request_of day_profile) overruled)))))
     = (80, 40).
Proof.
  destruct (override_supersedes_schedule cet [] 9000 (request_of day_profile)
              (mkEnv 3000 false 0) (mkEnv 2500 false 0) overruled)
    as (_ & _ & Hpass & _ & Hnext).
  - reflexivity.
  - reflexivity.
  - destruct (Hpass LAMPA) as [HA _]. destruct (Hpass LAMPB) as [HB _].
    destruct (Hnext LAMPA) as (_ & HnA & _).
    destruct (Hnext LAMPB) as (_ & HnB & _).
    cbn [run fst intensity] in HA, HB, HnA, HnB.
    rewrite HA, HB, HnA, HnB. repeat split; reflexivity.
Defined.

(** C5, as the code has it: a pass of [loop] writes a channel exactly when
    its target differs from the intensity remembered for that channel, and
    then writes the target once.  A run of passes that all have the same
    targets therefore writes each channel at most once: once when the
    target differs from the intensity remembered at the start of the run,
    and not at all when it equals it. *)
Theorem writes_only_on_change (toLocal : Z -> Z) (evs : list event)
  (e : env) (s : state) (t : Z * Z) (c : pin) :
  Forall (eq t) (run_targets toLocal evs s) ->
  run_targets toLocal evs s <> [] ->
  writes_to c (snd (loop toLocal e s))
  = (if target_of c (loop_targets toLocal e s) =? intensity c s
     then []
     else [target_of c (loop_targets toLocal e s)])
  /\ writes_to c (snd (run toLocal evs s))
     = (if target_of c t =? intensity c s then [] else [target_of c t]).
Proof.
  intros Hall Hne. split; [apply loop_writes|].
  rewrite (run_constant_targets toLocal c t evs s Hall).
  destruct (run_targets toLocal evs s); [contradiction | reflexivity].
Qed.

Lemma writes_only_on_change_witness :
  snd (run cet [Loop (mkEnv 1000 false 0); Timer1sec; Loop (mkEnv 2000 false 0)]
         evening)
  = [(LAMPA, 80); (LAMPB, 40)].
Proof.
  pose proof (writes_only_on_change cet
                [Loop (mkEnv 1000 false 0); Timer1sec; Loop (mkEnv 2000 false 0)]
                (mkEnv 1000 false 0) evening (80, 40) LAMPA) as H.
  assert (Forall (eq (80, 40))
            (run_targets cet
               [Loop (mkEnv 1000 false 0); Timer1sec; Loop (mkEnv 2000 false 0)]
               evening)) as Hall by (repeat constructor).
  destruct (H Hall) as [_ H2]; [discriminate|].
  assert (writes_to LAMPA
            (snd (run cet
                    [Loop (mkEnv 1000 false 0); Timer1sec; Loop (mkEnv 2000 false 0)]
                    evening)) = [80]) as H3 by (rewrite H2; reflexivity).
  clear - H3. reflexivity.
Defined.

(** C5 fails on the code: right after power-on with an all-zero table, two
    passes with identical targets (0, 0) write neither channel, not once
    each. *)
Lemma idle_run_writes_nothing :
  let evs := [Loop (mkEnv 1000 false 0); Loop (mkEnv 2000 false 0)] in
  let s := power_on (repeat 0 512%nat) in
  run_targets cet evs s = [(0, 0); (0, 0)]
  /\ writes_to LAMPA (snd (run cet evs s)) = []
  /\ writes_to LAMPB (snd (run cet evs s)) = []
  /\ List.length (writes_to LAMPA (snd (run cet evs s))) <> 1%nat.
Proof.
  vm_compute. repeat split. discriminate.
Qed.

(** C6, as the code has it: a pass in which [timeClient.update ()] reports
    no time leaves [ltime] and the refresh timer alone and still runs the
    decision and the writes, from the override or from the table entries of
    the hour of the [ltime] it has. *)
Theorem unsynchronized_pass_still_applies (toLocal : Z -> Z) (e : env)
  (s : state) (c : pin) :
  ntp_update e = false ->
  ltime (fst (loop toLocal e s)) = ltime s
  /\ rfrltm (refresh_time toLocal e s) = rfrltm s
  /\ loop_targets toLocal e s = targets s
  /\ intensity c (fst (loop toLocal e s)) = target_of c (targets s)
  /\ writes_to c (snd (loop toLocal e s))
     = (if target_of c (targets s) =? intensity c s
        then []
        else [target_of c (targets s)]).
Proof.
  intros Hu.
  assert (loop_targets toLocal e s = targets s) as Ht.
  { unfold loop_targets, refresh_time, targets.
    cbn [time_ok set_time_ok]. rewrite Hu. reflexivity. }
  rewrite loop_ltime, loop_intensity, loop_writes, Ht.
  repeat split; unfold refresh_time; cbn [time_ok set_time_ok]; now rewrite Hu.
Qed.

Lemma unsynchronized_pass_still_applies_witness :
  writes_to LAMPA (snd (loop cet (mkEnv 1000 false 0) never_synced)) = [50].
Proof.
  destruct (unsynchronized_pass_still_applies cet (mkEnv 1000 false 0)
              never_synced LAMPA eq_refl) as (_ & _ & _ & _ & H).
  rewrite H. reflexivity.
Defined.

(** C6 fails on the code: on a device that has never had the time, a pass
    whose time update fails does not hold the outputs; it takes hour 0 of
    the zero [ltime] and writes both channels. *)
Lemma unsynchronized_pass_writes :
  let e := mkEnv 1000 false 0 in
  ltime never_synced = 0
  /\ time_ok (fst (loop cet e never_synced)) = false
  /\ (intensityA never_synced, intensityB never_synced) = (0, 0)
  /\ snd (loop cet e never_synced) = [(LAMPA, 50); (LAMPB, 40)]
  /\ (intensityA (fst (loop cet e never_synced)),
      intensityB (fst (loop cet e never_synced))) = (50, 40)
  /\ snd (loop cet e never_synced) <> [].
Proof.
  vm_compute. repeat split. discriminate.
Qed.

(** ** Static files *)

Section Files.

Import WString.

Lemma substring_last_char (n : nat) :
  forall s c t, substring n s = String c t ->
  last_char s = last_char (String c t).
Proof.
  induction n as [|n IH]; intros s c t H.
  - simpl in H. destruct s; now rewrite H.
  - destruct s as [|x s]; [discriminate H|]. cbn [substring] in H.
    rewrite <- (IH _ _ _ H). destruct s as [|y s]; [|reflexivity].
    destruct n; discriminate H.
Qed.

Lemma endsWith_last_char (suffix s : string) (c : ascii) (t : string) :
  suffix = String c t -> endsWith suffix s = true ->
  last_char s = last_char suffix.
Proof.
  intros -> H. unfold endsWith in H.
  destruct (Nat.ltb (String.length s) (String.length (String c t)));
    [discriminate H|].
  apply String.eqb_eq in H. now apply substring_last_char in H.
Qed.

Lemma endsWith_other (suffix suffix' s : string) (c c' : ascii) (t t' : string) :
  suffix = String c t -> suffix' = String c' t' ->
  last_char suffix <> last_char suffix' ->
  endsWith suffix s = true -> endsWith suffix' s = false.
Proof.
  intros E E' Hne H. destruct (endsWith suffix' s) eqn:H'; [|reflexivity].
  rewrite <- (endsWith_last_char _ _ _ _ E H) in Hne.
  rewrite <- (endsWith_last_char _ _ _ _ E' H') in Hne.
  now elim Hne.
Qed.

Lemma getContentType_secret (filename : string) :
  String.eqb (getContentType filename) "" = endsWith ".pw" filename.
Proof.
  destruct (endsWith ".pw" filename) eqn:Hpw.
  - unfold getContentType.
    rewrite (endsWith_other ".pw" ".html" filename _ _ _ _ eq_refl eq_refl)
      by (discriminate || exact Hpw).
    rewrite (endsWith_other ".pw" ".png" filename _ _ _ _ eq_refl eq_refl)
      by (discriminate || exact Hpw).
    rewrite (endsWith_other ".pw" ".gif" filename _ _ _ _ eq_refl eq_refl)
      by (discriminate || exact Hpw).
    rewrite (endsWith_other ".pw" ".jpg" filename _ _ _ _ eq_refl eq_refl)
      by (discriminate || exact Hpw).
    rewrite (endsWith_other ".pw" ".ico" filename _ _ _ _ eq_refl eq_refl)
      by (discriminate || exact Hpw).
    rewrite (endsWith_other ".pw" ".css" filename _ _ _ _ eq_refl eq_refl)
      by (discriminate || exact Hpw).
    rewrite (endsWith_other ".pw" ".zip" filename _ _ _ _ eq_refl eq_refl)
      by (discriminate || exact Hpw).
    rewrite (endsWith_other ".pw" ".gz" filename _ _ _ _ eq_refl eq_refl)
      by (discriminate || exact Hpw).
    rewrite Hpw. reflexivity.
  - unfold getContentType. rewrite Hpw.
    repeat match goal with
           | |- context [if ?b then _ else _] => destruct b
           end; reflexivity.
Qed.

Lemma getContentType_unknown (filename : string) :
  known_extension filename = false -> getContentType filename = "text/plain"%string.
Proof.
  unfold known_extension, getContentType. intros H.
  repeat (apply orb_false_iff in H; destruct H as [H ?]).
  repeat match goal with
         | E : endsWith _ _ = false |- _ => rewrite E; clear E
         end.
  reflexivity.
Qed.

End Files.

(** C8, as the code has it: a request for a static file is answered 404
    when the path ends in [.pw], stored or not, and otherwise when neither
    the path nor its [.gz] twin is stored.  Any other stored path is sent,
    and a path with none of the known extensions is sent as
    [text/plain]. *)
Theorem file_request_not_found (fs : list string) (heap : Z) (fnam : string)
  (s : state) :
  snd (onFileRequest fs heap fnam s)
  = if WString.endsWith ".pw" fnam
    then Reply 404 "text/plain" "File not found"
    else if (LittleFS_exists fs fnam || LittleFS_exists fs (fnam ++ ".gz"))%bool
         then ReplyFile fnam (if known_extension fnam
                              then getContentType fnam
                              else "text/plain"%string)
         else ReplyStatus 404.
Proof.
  unfold onFileRequest. rewrite getContentType_secret.
  destruct (WString.endsWith ".pw" fnam); [reflexivity|].
  cbn [snd]. unfold send_file.
  destruct (LittleFS_exists fs fnam || LittleFS_exists fs (fnam ++ ".gz"))%bool;
    [|reflexivity].
  destruct (known_extension fnam) eqn:Hk; [reflexivity|].
  now rewrite getContentType_unknown.
Qed.

(** C8 fails on the code: a stored file with an unknown extension is not
    refused but sent as [text/plain]; the credential file and a missing
    page are answered 404. *)
Lemma unknown_extension_is_served :
  let fs := ["/index.html"; "/notes.txt"; "/home.pw"]%string in
  let s := power_on (repeat 0 512%nat) in
  known_extension "/notes.txt" = false
  /\ snd (onFileRequest fs 9000 "/notes.txt" s) = ReplyFile "/notes.txt" "text/plain"
  /\ status_of (snd (onFileRequest fs 9000 "/notes.txt" s)) <> 404
  /\ status_of (snd (onFileRequest fs 9000 "/home.pw" s)) = 404
  /\ status_of (snd (onFileRequest fs 9000 "/missing.html" s)) = 404.
Proof.
  vm_compute. repeat split. discriminate.
Qed.

(** ** Streaming the log *)

Section Streaming.

Import WString.

Lemma c_str_id (l : string) : str_all not_nul l = true -> c_str l = l.
Proof.
  induction l as [|c l IH]; [reflexivity|]. cbn [str_all c_str]. intros H.
  apply andb_prop in H as [Hc Hl]. unfold not_nul in Hc.
  apply negb_true_iff in Hc. now rewrite Hc, IH.
Qed.

Lemma str_all_not_nul (l : string) :
  str_all not_nul l = true ->
  Forall (fun ch => ch <> NUL) (list_ascii_of_string l).
Proof.
  induction l as [|c l IH]; cbn [str_all list_ascii_of_string]; intros H.
  - constructor.
  - apply andb_prop in H as [Hc Hl]. constructor; [|now apply IH].
    unfold not_nul in Hc. apply negb_true_iff in Hc.
    now apply Ascii.eqb_neq in Hc.
Qed.

Lemma fill_linebuf_ok (l : string) :
  str_all not_nul l = true ->
  fill_linebuf l = list_ascii_of_string l ++ [LF]
  /\ Forall (fun ch => ch <> NUL) (fill_linebuf l).
Proof.
  intros H. unfold fill_linebuf. rewrite (c_str_id _ H). split; [reflexivity|].
  apply Forall_app. split; [now apply str_all_not_nul|].
  constructor; [discriminate | constructor].
Qed.

Lemma deref_end (buf : list ascii) (p : nat) :
  Forall (fun ch => ch <> NUL) buf -> (p <= List.length buf)%nat ->
  Ascii.eqb (deref buf p) NUL = Nat.eqb p (List.length buf).
Proof.
  intros Hbuf Hp. unfold deref.
  destruct (Nat.eqb_spec p (List.length buf)) as [->|Hne].
  - rewrite nth_overflow by lia. reflexivity.
  - apply Ascii.eqb_neq. rewrite Forall_forall in Hbuf.
    apply Hbuf. apply nth_In. lia.
Qed.

Lemma skipn_cons_nth {A} (d : A) (l : list A) :
  forall p, (p < List.length l)%nat ->
  skipn p l = nth p l d :: skipn (S p) l.
Proof.
  induction l as [|x l IH]; intros p Hp; [simpl in Hp; lia|].
  destruct p as [|p]; [reflexivity|]. cbn [skipn nth].
  cbn [List.length] in Hp. rewrite (IH p) by lia. reflexivity.
Qed.

Section OneLog.

Variable lines : list string.
Hypothesis lines_ok : Forall line_ok lines.

Lemma nth_line_ok (i : nat) :
  (i < List.length lines)%nat -> str_all not_nul (nth i lines ""%string) = true.
Proof.
  intros Hi. rewrite Forall_forall in lines_ok.
  apply (lines_ok (nth i lines ""%string)). now apply nth_In.
Qed.

Lemma cb_while_spec (m : nat) :
  forall c out, cb_ok lines c ->
  exists c',
    cb_while m lines c out = (c', out ++ firstn m (remaining lines c))
    /\ cb_ok lines c'
    /\ remaining lines c' = skipn m (remaining lines c).
Proof.
  induction m as [|m IH]; intros c out Hok.
  - exists c. cbn. rewrite app_nil_r. auto.
  - destruct Hok as (Hbuf & Hp & Hi & Hn).
    cbn [cb_while]. rewrite (deref_end _ _ Hbuf Hp).
    destruct (Nat.eqb_spec (cb_p_in c) (List.length (cb_linebuf c))) as [Hend|Hmid].
    + destruct (Nat.eqb_spec (cb_i c) (cb_nrl c)) as [Hlast|Hmore].
      * exists c.
        assert (remaining lines c = []) as Hrem.
        { unfold remaining. now rewrite Hend, skipn_all, Hlast, Nat.sub_diag. }
        rewrite Hrem, firstn_nil, skipn_nil, app_nil_r.
        split; [reflexivity|]. split; [|reflexivity].
        repeat split; assumption.
      * assert (cb_i c < List.length lines)%nat as Hlt by lia.
        destruct (fill_linebuf_ok _ (nth_line_ok _ Hlt)) as [Hfill Hnn].
        set (buf := fill_linebuf (nth (cb_i c) lines ""%string)) in *.
        assert (remaining lines c
                = buf ++ log_stream
                           (firstn (cb_nrl c - S (cb_i c))
                              (skipn (S (cb_i c)) lines))) as Hrem.
        { unfold remaining. rewrite Hend, skipn_all. cbn [app].
          rewrite (skipn_cons_nth ""%string lines _ Hlt).
          replace (cb_nrl c - cb_i c)%nat with (S (cb_nrl c - S (cb_i c))) by lia.
          cbn [firstn]. unfold log_stream at 1. cbn [map List.concat].
          now rewrite <- Hfill. }
        assert (exists x xs, buf = x :: xs) as (x & xs & Hbufeq).
        { rewrite Hfill. destruct (list_ascii_of_string _); cbn; eauto. }
        destruct (IH (mkCb (S (cb_i c)) (cb_nrl c) buf 1) (out ++ [deref buf 0]))
          as (c' & Hrun & Hok' & Hrem').
        { repeat split; cbn; auto; try lia. rewrite Hbufeq. cbn. lia. }
        exists c'. cbn [cb_i cb_nrl cb_linebuf cb_p_in]. rewrite Hrun.
        split; [f_equal|split; [exact Hok'|]].
        -- rewrite Hrem. unfold remaining at 1.
           cbn [cb_i cb_nrl cb_linebuf cb_p_in].
           rewrite Hbufeq. unfold deref. cbn.
           now rewrite <- app_assoc.
        -- rewrite Hrem', Hrem. unfold remaining.
           cbn [cb_i cb_nrl cb_linebuf cb_p_in]. rewrite Hbufeq. reflexivity.
    + assert (cb_p_in c < List.length (cb_linebuf c))%nat as Hlt by lia.
      assert (remaining lines c
              = deref (cb_linebuf c) (cb_p_in c)
                :: remaining lines
                     (mkCb (cb_i c) (cb_nrl c) (cb_linebuf c) (S (cb_p_in c))))
        as Hrem.
      { unfold remaining. cbn [cb_i cb_nrl cb_linebuf cb_p_in].
        rewrite (skipn_cons_nth NUL _ _ Hlt). reflexivity. }
      destruct (IH (mkCb (cb_i c) (cb_nrl c) (cb_linebuf c) (S (cb_p_in c)))
                  (out ++ [deref (cb_linebuf c) (cb_p_in c)]))
        as (c' & Hrun & Hok' & Hrem').
      { repeat split; cbn; auto. }
      exists c'. rewrite Hrun. split; [f_equal|split; [exact Hok'|]].
      * rewrite Hrem. cbn [firstn]. now rewrite <- app_assoc.
      * rewrite Hrem', Hrem. reflexivity.
Qed.

Lemma reset_ok :
  cb_ok lines (mkCb 0 (List.length lines) [] 0)
  /\ remaining lines (mkCb 0 (List.length lines) [] 0) = log_stream lines.
Proof.
  split.
  - repeat split; cbn; auto; lia.
  - unfold remaining. cbn. now rewrite Nat.sub_0_r, firstn_all.
Qed.

End OneLog.

Lemma skipn_firstn_length {A} (m : nat) (l : list A) :
  skipn m l = skipn (List.length (firstn m l)) l.
Proof.
  rewrite length_firstn. destruct (Nat.le_ge_cases m (List.length l)).
  - now rewrite Nat.min_l.
  - rewrite Nat.min_r by assumption. now rewrite !skipn_all2.
Qed.

(** One call: the next piece of the stream, and the statics moved on. *)
Lemma cb_logging_spec (m filled : nat) (s : state) :
  Forall line_ok (dbglines s) ->
  (filled <> 0%nat ->
   cb_ok (dbglines s) (cb s)
   /\ remaining (dbglines s) (cb s) = skipn filled (log_stream (dbglines s))) ->
  snd (cb_logging m filled s) = firstn m (skipn filled (log_stream (dbglines s)))
  /\ dbglines (fst (cb_logging m filled s)) = dbglines s
  /\ cb_ok (dbglines s) (cb (fst (cb_logging m filled s)))
  /\ remaining (dbglines s) (cb (fst (cb_logging m filled s)))
     = skipn (filled + List.length (snd (cb_logging m filled s)))
         (log_stream (dbglines s)).
Proof.
  intros Hlines Hinv. unfold cb_logging.
  set (c0 := if Nat.eqb filled 0 then _ else _).
  assert (cb_ok (dbglines s) c0
          /\ remaining (dbglines s) c0 = skipn filled (log_stream (dbglines s)))
    as [Hok Hrem].
  { unfold c0. destruct (Nat.eqb_spec filled 0) as [->|Hne].
    - apply reset_ok.
    - now apply Hinv. }
  destruct (cb_while_spec _ Hlines m c0 [] Hok) as (c' & Hrun & Hok' & Hrem').
  rewrite Hrun. cbn [fst snd app set_cb dbglines cb].
  split; [now rewrite Hrem|]. split; [reflexivity|]. split; [exact Hok'|].
  rewrite Hrem', Hrem, (skipn_firstn_length m), skipn_skipn.
  f_equal. lia.
Qed.

Lemma chunked_spec (sizes : list nat) :
  forall filled s,
  Forall line_ok (dbglines s) ->
  (filled <> 0%nat ->
   cb_ok (dbglines s) (cb s)
   /\ remaining (dbglines s) (cb s) = skipn filled (log_stream (dbglines s))) ->
  snd (chunked sizes filled s)
  = slices sizes (skipn filled (log_stream (dbglines s))).
Proof.
  induction sizes as [|m sizes IH]; intros filled s Hlines Hinv; [reflexivity|].
  destruct (cb_logging_spec m filled s Hlines Hinv) as (Hout & Hdbg & Hok & Hrem).
  cbn [chunked slices]. destruct (cb_logging m filled s) as [s1 chunk].
  cbn [fst snd] in *.
  specialize (IH (filled + List.length chunk)%nat s1).
  destruct (chunked sizes (filled + List.length chunk) s1) as [s2 chunks].
  cbn [snd] in *. rewrite Hdbg in IH. rewrite IH; auto.
  rewrite Hout at 1. f_equal.
  rewrite (skipn_firstn_length m), <- Hout, skipn_skipn.
  f_equal. f_equal. lia.
Qed.

(** *** pieces of a text *)

Lemma firstn_add {A} (m k : nat) :
  forall l : list A, firstn m l ++ firstn k (skipn m l) = firstn (m + k) l.
Proof.
  induction m as [|m IH]; intros l; [reflexivity|].
  destruct l as [|x l]; [now rewrite !firstn_nil|].
  cbn [firstn skipn app Nat.add]. now rewrite IH.
Qed.

Lemma concat_slices (sizes : list nat) :
  forall l, List.concat (slices sizes l) = firstn (list_sum sizes) l.
Proof.
  induction sizes as [|m sizes IH]; intros l; [reflexivity|].
  cbn [slices List.concat list_sum]. rewrite IH. apply firstn_add.
Qed.

Lemma short_slice_ends (sizes : list nat) :
  forall l k chunk size,
  nth_error (slices sizes l) k = Some chunk ->
  nth_error sizes k = Some size ->
  (List.length chunk < size)%nat ->
  List.concat (firstn (S k) (slices sizes l)) = l.
Proof.
  induction sizes as [|m sizes IH]; intros l k chunk size Hc Hs Hlt.
  - destruct k; discriminate Hs.
  - destruct k as [|k]; cbn [slices nth_error firstn List.concat] in *.
    + injection Hc as <-. injection Hs as <-.
      rewrite length_firstn in Hlt. rewrite app_nil_r.
      apply firstn_all2. lia.
    + rewrite (IH _ _ _ _ Hc Hs Hlt). apply firstn_skipn.
Qed.

Lemma slices_short_exists (sizes : list nat) :
  forall l, (List.length l < list_sum sizes)%nat ->
  exists k chunk size,
    nth_error (slices sizes l) k = Some chunk
    /\ nth_error sizes k = Some size
    /\ (List.length chunk < size)%nat.
Proof.
  induction sizes as [|m sizes IH]; intros l H; [simpl in H; lia|].
  change (list_sum (m :: sizes)) with (m + list_sum sizes)%nat in H.
  destruct (Nat.lt_ge_cases (List.length l) m) as [Hm|Hm].
  - exists 0%nat, (firstn m l), m. repeat split.
    rewrite length_firstn. lia.
  - destruct (IH (skipn m l)) as (k & chunk & size & H1 & H2 & H3).
    { rewrite length_skipn. lia. }
    exists (S k), chunk, size. auto.
Qed.

End Streaming.

(** ** What the log holds *)

Section LogLines.

Import WString.

Lemma isdigit_not_nul (c : ascii) : isdigit c = true -> not_nul c = true.
Proof.
  unfold isdigit, not_nul. intros H.
  destruct (Ascii.eqb_spec c NUL) as [->|]; [discriminate H | reflexivity].
Qed.

Lemma utoa_not_nul (n : Z) : str_all not_nul (utoa n) = true.
Proof.
  apply (str_all_impl isdigit); [exact isdigit_not_nul | apply utoa_aux_digits].
Qed.

Lemma utoa_aux_step (f : nat) (n : Z) (acc : string) :
  utoa_aux (S f) n acc
  = if n / 10 =? 0 then String (digit_char (n mod 10)) acc
    else utoa_aux f (n / 10) (String (digit_char (n mod 10)) acc).
Proof. reflexivity. Qed.

Lemma fmt02d_ok (n : Z) :
  0 <= n < 100 ->
  String.length (fmt02d n) = 2%nat /\ str_all not_nul (fmt02d n) = true.
Proof.
  intros Hn. unfold fmt02d. destruct (Z.ltb_spec n 10) as [Hlt|Hge].
  - split; [|cbn [str_all]; now rewrite utoa_not_nul].
    unfold utoa. rewrite utoa_aux_step, Z.div_small by lia. reflexivity.
  - split; [|apply utoa_not_nul].
    unfold utoa. rewrite utoa_aux_step.
    assert (1 <= n / 10 < 10) as Hq.
    { split; [apply Z.div_le_lower_bound | apply Z.div_lt_upper_bound]; lia. }
    destruct (Z.eqb_spec (n / 10) 0) as [E|_]; [lia|].
    rewrite utoa_aux_step, Z.div_small by lia. reflexivity.
Qed.

Lemma time_parts (t : Z) :
  0 <= TimeLib.hour t < 100 /\ 0 <= TimeLib.minute t < 100
  /\ 0 <= TimeLib.second t < 100.
Proof.
  unfold TimeLib.hour, TimeLib.minute, TimeLib.second.
  pose proof (Z.mod_pos_bound (Int.to_uint32 t / 3600) 24).
  pose proof (Z.mod_pos_bound (Int.to_uint32 t / 60) 60).
  pose proof (Z.mod_pos_bound (Int.to_uint32 t) 60). lia.
Qed.

Lemma tbuf_ok (t : Z) :
  String.length (tbuf t) = 11%nat /\ str_all not_nul (tbuf t) = true.
Proof.
  destruct (time_parts t) as (Hh & Hm & Hs).
  destruct (fmt02d_ok _ Hh) as [Lh Nh].
  destruct (fmt02d_ok _ Hm) as [Lm Nm].
  destruct (fmt02d_ok _ Hs) as [Ls Ns].
  unfold tbuf. split.
  - rewrite !length_append, Lh, Lm, Ls. reflexivity.
  - rewrite !str_all_append, Nh, Nm, Ns. reflexivity.
Qed.

Lemma c_str_ok (x : string) :
  str_all not_nul (c_str x) = true
  /\ (String.length (c_str x) <= String.length x)%nat.
Proof.
  induction x as [|c x [IH1 IH2]]; [split; [reflexivity | apply Nat.le_refl]|].
  cbn [c_str]. destruct (Ascii.eqb c NUL) eqn:E.
  - split; [reflexivity | cbn; lia].
  - cbn [str_all String.length]. unfold not_nul at 1. rewrite E, IH1.
    split; [reflexivity | lia].
Qed.

Lemma length_take (n : nat) :
  forall x, (String.length (take n x) <= n)%nat.
Proof.
  induction n as [|n IH]; intros x; [cbn; lia|].
  destruct x as [|c x]; cbn [take String.length]; [lia|].
  specialize (IH x). lia.
Qed.

Lemma vsnprintf_ok (size : nat) (text : string) :
  str_all not_nul (vsnprintf size text) = true
  /\ (String.length (vsnprintf size text) <= size - 1)%nat.
Proof.
  unfold vsnprintf. destruct (c_str_ok (take (size - 1) text)) as [H1 H2].
  split; [exact H1|]. pose proof (length_take (size - 1) text). lia.
Qed.

(** Every line [dbgprint] forms is a C string of at most 160 characters. *)
Lemma dbgline_ok (t : Z) (text : string) :
  line_ok (tbuf t ++ vsnprintf DEBUG_BUFFER_SIZE text).
Proof.
  destruct (tbuf_ok t) as [Lt Nt].
  destruct (vsnprintf_ok DEBUG_BUFFER_SIZE text) as [Nv Lv].
  split.
  - now rewrite str_all_append, Nt, Nv.
  - rewrite length_append, Lt. unfold DEBUG_BUFFER_SIZE in *. lia.
Qed.

Lemma dbgprint_grows (heap : Z) (text : string) (s : state) :
  exists new,
    dbglines (dbgprint heap text s) = dbglines s ++ new
    /\ Forall line_ok new.
Proof.
  rewrite dbglines_dbgprint. destruct (8000 <? heap).
  - eexists. split; [reflexivity|].
    constructor; [apply dbgline_ok | constructor].
  - exists []. now rewrite app_nil_r.
Qed.

Lemma step_grows (toLocal : Z -> Z) (a : action) (s : state) :
  exists new,
    dbglines (step toLocal a s) = dbglines s ++ new /\ Forall line_ok new.
Proof.
  destruct a as [e| |heap|heap value|heap value|fs heap fnam|heap|m index];
    cbn [step].
  - exists []. destruct (loop_keeps toLocal e s) as (_ & _ & _ & _ & -> & _).
    now rewrite app_nil_r.
  - exists []. now rewrite app_nil_r.
  - apply dbgprint_grows.
  - unfold handle_setconf, EEPROM_put_commit.
    cbn [fst dbglines set_eeprom set_overrule set_settings].
    apply dbgprint_grows.
  - unfold handle_overrule. cbn [fst].
    destruct (0 <? indexOf "," value);
      cbn [dbglines set_ovB set_ovA set_overrule]; apply dbgprint_grows.
  - unfold onFileRequest.
    destruct (String.eqb (getContentType fnam) ""); cbn [fst];
      apply dbgprint_grows.
  - apply dbgprint_grows.
  - exists []. unfold cb_logging.
    destruct (cb_while _ _ _ _). cbn. now rewrite app_nil_r.
Qed.

Lemma steps_grow (toLocal : Z -> Z) (l : list action) :
  forall s, exists new,
    dbglines (steps toLocal l s) = dbglines s ++ new /\ Forall line_ok new.
Proof.
  induction l as [|a l IH]; intros s.
  - exists []. cbn. now rewrite app_nil_r.
  - cbn [steps fold_left]. destruct (IH (step toLocal a s)) as (n2 & E2 & F2).
    destruct (step_grows toLocal a s) as (n1 & E1 & F1).
    exists (n1 ++ n2). unfold steps in E2. rewrite E2, E1, app_assoc.
    split; [reflexivity | now apply Forall_app].
Qed.

(** The lines of a device that has run from power-on are all fit to
    stream. *)
Lemma reachable_lines_ok (toLocal : Z -> Z) (rom : list Z) (l : list action) :
  Forall line_ok (dbglines (steps toLocal l (power_on rom))).
Proof.
  destruct (steps_grow toLocal l (power_on rom)) as (new & -> & H).
  exact H.
Qed.

End LogLines.

(** C9: [dbgprint] stores the new line at the end of [dbglines] when the
    free heap is above 8000 bytes and stores nothing when it is at or
    below; either way the lines already stored stay where they were, as
    the leading part of the log, and so they do through any sequence of
    passes of [loop], timer ticks and requests. *)
Theorem dbgprint_append_only (toLocal : Z -> Z) (heap : Z) (text : string)
  (l : list action) (s : state) :
  dbglines (dbgprint heap text s)
  = (if 8000 <? heap
     then dbglines s ++ [(tbuf (ltime s) ++ vsnprintf DEBUG_BUFFER_SIZE text)%string]
     else dbglines s)
  /\ firstn (List.length (dbglines s)) (dbglines (dbgprint heap text s))
     = dbglines s
  /\ firstn (List.length (dbglines s)) (dbglines (steps toLocal l s))
     = dbglines s.
Proof.
  rewrite dbglines_dbgprint. split; [reflexivity|]. split.
  - destruct (8000 <? heap).
    + apply firstn_length_app.
    + apply firstn_all.
  - destruct (steps_grow toLocal l s) as (new & -> & _).
    apply firstn_length_app.
Qed.

(** C7: for a log of stored lines, a call of [cb_logging] with index 0
    starts from the first line whatever the statics held; the calls of one
    pass, each given its buffer size and the count of bytes delivered so
    far, return the stream of the lines in stored order, each followed by a
    line feed, cut into pieces that fill each buffer as long as bytes are
    left; a piece shorter than its buffer means the whole stream has been
    delivered; and once the buffers offered exceed the stream in total, the
    pass has delivered every line and holds such a short piece. *)
Theorem log_streaming (sizes : list nat) (m : nat) (c : cb_statics)
  (s : state) :
  Forall line_ok (dbglines s) ->
  snd (cb_logging m 0 (set_cb c s)) = firstn m (log_stream (dbglines s))
  /\ snd (chunked sizes 0 s) = slices sizes (log_stream (dbglines s))
  /\ List.concat (snd (chunked sizes 0 s))
     = firstn (list_sum sizes) (log_stream (dbglines s))
  /\ (forall k chunk size,
        nth_error (snd (chunked sizes 0 s)) k = Some chunk ->
        nth_error sizes k = Some size ->
        (List.length chunk < size)%nat ->
        List.concat (firstn (S k) (snd (chunked sizes 0 s)))
        = log_stream (dbglines s))
  /\ ((List.length (log_stream (dbglines s)) < list_sum sizes)%nat ->
      List.concat (snd (chunked sizes 0 s)) = log_stream (dbglines s)
      /\ exists k chunk size,
           nth_error (snd (chunked sizes 0 s)) k = Some chunk
           /\ nth_error sizes k = Some size
           /\ (List.length chunk < size)%nat).
Proof.
  intros Hlines.
  assert (snd (chunked sizes 0 s) = slices sizes (log_stream (dbglines s))) as E.
  { rewrite chunked_spec; [reflexivity | exact Hlines | intros H; now elim H]. }
  split.
  - destruct (cb_logging_spec m 0 (set_cb c s)) as (H & _).
    + exact Hlines.
    + intros H; now elim H.
    + exact H.
  - rewrite E. split; [reflexivity|]. split; [apply concat_slices|]. split.
    + intros k chunk size. apply short_slice_ends.
    + intros Hsum. split.
      * rewrite concat_slices. apply firstn_all2. lia.
      * now apply slices_short_exists.
Qed.

Lemma log_streaming_witness :
  map (@List.length ascii) (snd (chunked [30; 30; 30]%nat 0 two_lines))
  = [30; 30; 4]%nat
  /\ string_of_list_ascii (List.concat (snd (chunked [30; 30; 30]%nat 0 two_lines)))
     = ("00:00:00 - HTTP getconf request" ++ String WString.LF
          ("00:00:00 - HTTP setconf request" ++ String WString.LF ""))%string.
Proof.
  destruct (log_streaming [30; 30; 30]%nat 30 (cb two_lines) two_lines)
    as (_ & H & _).
  - unfold two_lines. apply reachable_lines_ok.
  - rewrite H. split; reflexivity.
Defined.

(** * Further properties *)

(** ** What only writes the log *)

Section LogOnly.

Lemma logs_refl (s : state) : logs s s.
Proof. exists []. rewrite app_nil_r. destruct s; split; [reflexivity | constructor]. Qed.

Lemma logs_trans (s1 s2 s3 : state) : logs s1 s2 -> logs s2 s3 -> logs s1 s3.
Proof.
  intros (n1 & -> & F1) (n2 & -> & F2). exists (n1 ++ n2). split.
  - cbn [dbglines set_dbglines]. rewrite app_assoc. reflexivity.
  - now apply Forall_app.
Qed.

Lemma dbgprint_logs (heap : Z) (text : string) (s : state) :
  logs s (dbgprint heap text s).
Proof.
  unfold dbgprint. destruct (DEBUG =? 0); [apply logs_refl|].
  destruct (8000 <? heap); [|apply logs_refl].
  eexists. split; [reflexivity|]. constructor; [apply dbgline_ok | constructor].
Qed.

Lemma logs_fields (s s' : state) :
  logs s s' ->
  settings s' = settings s /\ eeprom s' = eeprom s
  /\ overrule s' = overrule s /\ ovA s' = ovA s /\ ovB s' = ovB s
  /\ intensityA s' = intensityA s /\ intensityB s' = intensityB s
  /\ ltime s' = ltime s /\ cb s' = cb s.
Proof. intros (new & -> & _). repeat split. Qed.

Lemma logs_lines (s s' : state) :
  logs s s' -> Forall line_ok (dbglines s) -> Forall line_ok (dbglines s').
Proof.
  intros (new & -> & F) H. cbn [dbglines set_dbglines]. now apply Forall_app.
Qed.

Lemma list_dir_logs (heap : nat -> Z) (entries : list (string * Z)) :
  forall k s, logs s (fst (list_dir heap entries k s)).
Proof.
  induction entries as [|[filename size] rest IH]; intros k s; cbn [list_dir].
  - apply logs_refl.
  - destruct (size =? 0); [apply IH|].
    eapply logs_trans; [apply dbgprint_logs | apply IH].
Qed.

Lemma scan_loop_logs (fs : list string) (heap : nat -> Z) (nets : list network) :
  forall i maxsig ssid s, logs s (fst (scan_loop fs heap nets i maxsig ssid s)).
Proof.
  induction nets as [|n rest IH]; intros i maxsig ssid s; cbn [scan_loop].
  - apply logs_refl.
  - eapply logs_trans; [apply dbgprint_logs | apply IH].
Qed.

Lemma listNetworks_logs (fs : list string) (heap : nat -> Z) (numSsid : Z)
  (nets : list network) (ssid : string) (s : state) :
  logs s (fst (listNetworks fs heap numSsid nets ssid s)).
Proof.
  unfold listNetworks. destruct (numSsid =? -1).
  - cbn [fst]. eapply logs_trans; apply dbgprint_logs.
  - pose proof (scan_loop_logs fs heap (firstn (Z.to_nat numSsid) nets) 0 (-1000)
                  ssid
                  (dbgprint (heap 1%nat)
                     ("Number of available networks: " ++ WString.ltoa numSsid)
                     (dbgprint (heap 0%nat) "Scan Networks" s))) as H.
    destruct (scan_loop _ _ _ _ _ _ _) as [s3 [m ssid']]. cbn [fst] in *.
    eapply logs_trans; [apply dbgprint_logs|].
    eapply logs_trans; [apply dbgprint_logs|].
    eapply logs_trans; [exact H|].
    eapply logs_trans; apply dbgprint_logs.
Qed.

Lemma connectwifi_logs (files : list (string * string)) (heap : nat -> Z)
  (connected : bool) (ip : Z * Z * Z * Z) (ssid : string) (s : state) :
  logs s (fst (connectwifi files heap connected ip ssid s)).
Proof.
  unfold connectwifi. destruct ip as [[[a b] c] d].
  destruct (negb connected); cbn [fst];
    (eapply logs_trans; apply dbgprint_logs).
Qed.

Lemma setup_logs (b : boot_env) (ssid : string) (s : state) :
  logs (EEPROM_get s) (fst (setup b ssid s)).
Proof.
  unfold setup.
  pose proof (list_dir_logs (heap_setup b) (dir_entries b) 3) as Hdir.
  match goal with
  | |- context [list_dir _ _ _ ?x] => specialize (Hdir x); destruct (list_dir _ _ _ x) as [s5 k]
  end.
  pose proof (listNetworks_logs (map fst (fs_files b)) (heap_scan b)
                (scan_count b) (scan_nets b) ssid s5) as Hscan.
  destruct (listNetworks _ _ _ _ _ s5) as [s6 ssid'].
  pose proof (connectwifi_logs (fs_files b) (heap_wifi b) (wifi_connected b)
                (wifi_ip b) ssid' s6) as Hwifi.
  destruct (connectwifi _ _ _ _ _ s6) as [s7 args].
  cbn [fst] in *.
  eapply logs_trans; [apply dbgprint_logs|].
  eapply logs_trans; [apply dbgprint_logs|].
  eapply logs_trans; [apply dbgprint_logs|].
  eapply logs_trans; [exact Hdir|].
  eapply logs_trans; [exact Hscan|].
  eapply logs_trans; [exact Hwifi|].
  apply dbgprint_logs.
Qed.

End LogOnly.

(** ** What each action leaves alone *)

Section Frames.

Variable toLocal : Z -> Z.

Lemma setconf_fields (heap : Z) (value : string) (s : state) :
  ovA (fst (handle_setconf heap value s)) = ovA s
  /\ ovB (fst (handle_setconf heap value s)) = ovB s
  /\ intensityA (fst (handle_setconf heap value s)) = intensityA s
  /\ intensityB (fst (handle_setconf heap value s)) = intensityB s
  /\ ltime (fst (handle_setconf heap value s)) = ltime s
  /\ cb (fst (handle_setconf heap value s)) = cb s.
Proof.
  destruct (logs_fields _ _ (dbgprint_logs heap "HTTP setconf request" s))
    as (_ & _ & _ & Ha & Hb & HiA & HiB & Ht & Hc).
  unfold handle_setconf, EEPROM_put_commit.
  cbn [fst ovA ovB intensityA intensityB ltime cb set_eeprom set_overrule
       set_settings].
  repeat split; assumption.
Qed.

Lemma overrule_fields (heap : Z) (value : string) (s : state) :
  settings (fst (handle_overrule heap value s)) = settings s
  /\ eeprom (fst (handle_overrule heap value s)) = eeprom s
  /\ overrule (fst (handle_overrule heap value s)) = true
  /\ intensityA (fst (handle_overrule heap value s)) = intensityA s
  /\ intensityB (fst (handle_overrule heap value s)) = intensityB s
  /\ cb (fst (handle_overrule heap value s)) = cb s.
Proof.
  destruct (logs_fields _ _ (dbgprint_logs heap "HTTP overrule request" s))
    as (Hs & He & _ & _ & _ & HiA & HiB & _ & Hc).
  unfold handle_overrule.
  destruct (0 <? WString.indexOf "," value);
    cbn [fst settings eeprom overrule intensityA intensityB cb
         set_ovB set_ovA set_overrule];
    repeat split; assumption.
Qed.

Lemma file_request_logs (fs : list string) (heap : Z) (fnam : string)
  (s : state) : logs s (fst (onFileRequest fs heap fnam s)).
Proof.
  unfold onFileRequest. destruct (String.eqb (getContentType fnam) "");
    apply dbgprint_logs.
Qed.

Lemma chunk_fields (m index : nat) (s : state) :
  settings (fst (cb_logging m index s)) = settings s
  /\ eeprom (fst (cb_logging m index s)) = eeprom s
  /\ overrule (fst (cb_logging m index s)) = overrule s
  /\ ovA (fst (cb_logging m index s)) = ovA s
  /\ ovB (fst (cb_logging m index s)) = ovB s
  /\ intensityA (fst (cb_logging m index s)) = intensityA s
  /\ intensityB (fst (cb_logging m index s)) = intensityB s.
Proof.
  unfold cb_logging. destruct (cb_while _ _ _ _). repeat split.
Qed.

Lemma step_keeps_schedule (a : action) (s : state) :
  is_setconf a = false ->
  settings (step toLocal a s) = settings s
  /\ eeprom (step toLocal a s) = eeprom s.
Proof.
  destruct a as [e| |heap|heap value|heap value|fs heap fnam|heap|m index];
    cbn [step is_setconf]; intros H; try discriminate H.
  - destruct (loop_keeps toLocal e s) as (-> & _ & _ & _ & _ & ->). now split.
  - now split.
  - destruct (logs_fields _ _ (dbgprint_logs heap "HTTP getconf request" s))
      as (H1 & H2 & _). now split.
  - destruct (overrule_fields heap value s) as (-> & -> & _). now split.
  - destruct (logs_fields _ _ (file_request_logs fs heap fnam s))
      as (H1 & H2 & _). now split.
  - destruct (logs_fields _ _ (dbgprint_logs heap "HTTP logging request" s))
      as (H1 & H2 & _). now split.
  - destruct (chunk_fields m index s) as (-> & -> & _). now split.
Qed.

Lemma step_keeps_override (a : action) (s : state) :
  is_setconf a = false ->
  (overrule s = true -> overrule (step toLocal a s) = true)
  /\ (is_overrule a = false ->
      overrule (step toLocal a s) = overrule s
      /\ ovA (step toLocal a s) = ovA s /\ ovB (step toLocal a s) = ovB s).
Proof.
  assert (forall s' : state,
            overrule s' = overrule s -> ovA s' = ovA s -> ovB s' = ovB s ->
            (overrule s = true -> overrule s' = true)
            /\ (is_overrule a = false ->
                overrule s' = overrule s /\ ovA s' = ovA s /\ ovB s' = ovB s))
    as Hsame.
  { intros s' Ho Ha Hb. split; [congruence | auto]. }
  destruct a as [e| |heap|heap value|heap value|fs heap fnam|heap|m index];
    cbn [step is_setconf]; intros H; try discriminate H.
  - destruct (loop_keeps toLocal e s) as (_ & Ho & Ha & Hb & _). now apply Hsame.
  - now apply Hsame.
  - destruct (logs_fields _ _ (dbgprint_logs heap "HTTP getconf request" s))
      as (_ & _ & Ho & Ha & Hb & _). now apply Hsame.
  - destruct (overrule_fields heap value s) as (_ & _ & Ho & _).
    split; [intros _; exact Ho | discriminate].
  - destruct (logs_fields _ _ (file_request_logs fs heap fnam s))
      as (_ & _ & Ho & Ha & Hb & _). now apply Hsame.
  - destruct (logs_fields _ _ (dbgprint_logs heap "HTTP logging request" s))
      as (_ & _ & Ho & Ha & Hb & _). now apply Hsame.
  - destruct (chunk_fields m index s) as (_ & _ & Ho & Ha & Hb & _).
    now apply Hsame.
Qed.

Lemma steps_cons (a : action) (l : list action) (s : state) :
  steps toLocal (a :: l) s = steps toLocal l (step toLocal a s).
Proof. reflexivity. Qed.

Lemma steps_keep_schedule (l : list action) :
  forall s, existsb is_setconf l = false ->
  settings (steps toLocal l s) = settings s
  /\ eeprom (steps toLocal l s) = eeprom s.
Proof.
  induction l as [|a l IH]; intros s H; [now split|].
  cbn [existsb] in H. apply orb_false_iff in H as [Ha Hl].
  rewrite steps_cons. destruct (IH (step toLocal a s) Hl) as [-> ->].
  now apply step_keeps_schedule.
Qed.

End Frames.

(** X1: nothing but a set-schedule request changes the table or the
    persistent block: through any passes of [loop], timer ticks and other
    requests both stay as they are. *)
Theorem schedule_changed_only_by_setconf (toLocal : Z -> Z) (l : list action)
  (s : state) :
  existsb is_setconf l = false ->
  settings (steps toLocal l s) = settings s
  /\ eeprom (steps toLocal l s) = eeprom s.
Proof. apply steps_keep_schedule. Qed.

Lemma schedule_changed_only_by_setconf_witness :
  settings
    (steps cet [DoOverrule 9000 "5,5"; DoLoop (mkEnv 1000 true 72000); DoTimer;
                DoGetconf 9000; DoFile [] 9000 "/x.html"; DoChunk 10 0]
       evening)
  = day_profile.
Proof.
  destruct (schedule_changed_only_by_setconf cet
              [DoOverrule 9000 "5,5"; DoLoop (mkEnv 1000 true 72000); DoTimer;
               DoGetconf 9000; DoFile [] 9000 "/x.html"; DoChunk 10 0]
              evening eq_refl) as [H _].
  rewrite H. reflexivity.
Defined.

(** X2: an active override stays active through any sequence of passes of
    [loop], timer ticks and get-schedule, overrule, file, logging and
    log-chunk calls, and through these its two intensities change only by
    a new overrule request; what switches it off is a set-schedule request
    or a reset. *)
Theorem override_kept_until_setconf_or_reset (toLocal : Z -> Z)
  (l : list action) (heap : Z) (value : string) (s : state) :
  existsb is_setconf l = false ->
  overrule s = true ->
  overrule (steps toLocal l s) = true
  /\ (existsb is_overrule l = false ->
      ovA (steps toLocal l s) = ovA s /\ ovB (steps toLocal l s) = ovB s)
  /\ overrule (fst (handle_setconf heap value (steps toLocal l s))) = false
  /\ overrule (handle_reset (steps toLocal l s)) = false.
Proof.
  intros H Ho.
  assert (overrule (steps toLocal l s) = true
          /\ (existsb is_overrule l = false ->
              ovA (steps toLocal l s) = ovA s /\ ovB (steps toLocal l s) = ovB s))
    as [H1 H2].
  { revert s H Ho. induction l as [|a l IH]; intros s H Ho; [now repeat split|].
    cbn [existsb] in H. apply orb_false_iff in H as [Ha Hl].
    rewrite steps_cons.
    destruct (step_keeps_override toLocal a s Ha) as [K1 K2].
    destruct (IH (step toLocal a s) Hl (K1 Ho)) as [IH1 IH2].
    split; [exact IH1|]. intros Hov. cbn [existsb] in Hov.
    apply orb_false_iff in Hov as [Hoa Hol].
    destruct (IH2 Hol) as [-> ->]. destruct (K2 Hoa) as (_ & -> & ->).
    now split. }
  split; [exact H1|]. split; [exact H2|]. split; reflexivity.
Qed.

Lemma override_kept_until_setconf_or_reset_witness :
  overrule
    (steps cet [DoLoop (mkEnv 1000 true 72000); DoTimer; DoGetconf 9000;
                DoLogging 9000; DoChunk 10 0]
       overruled) = true
  /\ ovA (steps cet [DoLoop (mkEnv 1000 true 72000); DoTimer; DoGetconf 9000;
                     DoLogging 9000; DoChunk 10 0]
            overruled) = 5.
Proof.
  destruct (override_kept_until_setconf_or_reset cet
              [DoLoop (mkEnv 1000 true 72000); DoTimer; DoGetconf 9000;
               DoLogging 9000; DoChunk 10 0]
              9000 "1" overruled eq_refl eq_refl) as (H1 & H2 & _).
  destruct (H2 eq_refl) as [H3 _]. rewrite H3. split; [exact H1 | reflexivity].
Defined.

(** ** Restart *)

Section Restart.

Variable toLocal : Z -> Z.

Lemma eeprom_setconf_eq (heap : Z) (value : string) (s : state) :
  List.length (settings s) = 48%nat ->
  eeprom (fst (handle_setconf heap value s))
  = parsed 48 value ++ skipn 48 (eeprom s).
Proof.
  intros H.
  destruct (logs_fields _ _ (dbgprint_logs heap "HTTP setconf request" s))
    as (Es & Ee & _).
  unfold handle_setconf, EEPROM_put_commit.
  cbn [fst settings eeprom set_eeprom set_overrule set_settings].
  rewrite setconf_loop_parsed, store_list_all
    by (rewrite length_parsed, Es; symmetry; exact H).
  now rewrite length_parsed, Ee.
Qed.

Lemma length_eeprom_setconf (heap : Z) (value : string) (s : state) :
  List.length (settings s) = 48%nat ->
  (48 <= List.length (eeprom (fst (handle_setconf heap value s))))%nat.
Proof.
  intros H. rewrite eeprom_setconf_eq by exact H.
  rewrite length_app, length_parsed. lia.
Qed.

Lemma restart_fields (b : boot_env) (s : state) :
  settings (fst (restart b s))
  = firstn 48 (eeprom s) ++ repeat 0 (48 - List.length (eeprom s))
  /\ eeprom (fst (restart b s)) = eeprom s
  /\ overrule (fst (restart b s)) = false
  /\ ovA (fst (restart b s)) = 0 /\ ovB (fst (restart b s)) = 0
  /\ intensityA (fst (restart b s)) = 0 /\ intensityB (fst (restart b s)) = 0
  /\ ltime (fst (restart b s)) = 0.
Proof.
  unfold restart.
  destruct (logs_fields _ _ (setup_logs b EmptyString (handle_reset s)))
    as (-> & -> & -> & -> & -> & -> & -> & -> & _).
  repeat split.
Qed.

Lemma restart_lines (b : boot_env) (s : state) :
  Forall line_ok (dbglines (fst (restart b s))).
Proof.
  unfold restart.
  apply (logs_lines _ _ (setup_logs b EmptyString (handle_reset s))).
  constructor.
Qed.

Lemma steps_lines (l : list action) (s : state) :
  Forall line_ok (dbglines s) -> Forall line_ok (dbglines (steps toLocal l s)).
Proof.
  intros H. destruct (steps_grow toLocal l s) as (new & -> & F).
  now apply Forall_app.
Qed.

(** *** bytes *)

Lemma to_uint8_byte (z : Z) : is_byte (Int.to_uint8 z).
Proof.
  unfold is_byte, Int.to_uint8. pose proof (Z.mod_pos_bound z 256). lia.
Qed.

Lemma parsed_bytes (n : nat) : forall value, Forall is_byte (parsed n value).
Proof.
  induction n as [|n IH]; intros value; cbn [parsed]; constructor;
    [apply to_uint8_byte | apply IH].
Qed.

Lemma nth_byte (l : list Z) (k : nat) : Forall is_byte l -> is_byte (nth k l 0).
Proof.
  intros H. destruct (Nat.lt_ge_cases k (List.length l)) as [Hk|Hk].
  - rewrite Forall_forall in H. apply H. now apply nth_In.
  - rewrite nth_overflow by assumption. unfold is_byte. lia.
Qed.

Lemma Forall_skipn_bytes (n : nat) (l : list Z) :
  Forall is_byte l -> Forall is_byte (skipn n l).
Proof.
  intros H. rewrite <- (firstn_skipn n l) in H.
  now apply Forall_app in H as [_ H].
Qed.

Lemma Forall_firstn_bytes (n : nat) (l : list Z) :
  Forall is_byte l -> Forall is_byte (firstn n l).
Proof.
  intros H. rewrite <- (firstn_skipn n l) in H.
  now apply Forall_app in H as [H _].
Qed.

Lemma targets_bytes (s : state) :
  Forall is_byte (settings s) -> is_byte (ovA s) -> is_byte (ovB s) ->
  is_byte (fst (targets s)) /\ is_byte (snd (targets s)).
Proof.
  intros Hs Ha Hb. unfold targets. destruct (overrule s); cbn [fst snd].
  - now split.
  - split; now apply nth_byte.
Qed.

Ltac conjs := repeat match goal with |- _ /\ _ => split end.

Lemma step_bytes (a : action) (s : state) :
  bytes_ok s -> bytes_ok (step toLocal a s).
Proof.
  intros (Hlen & Hs & He & Ha & Hb & HiA & HiB).
  assert (forall s' : state, logs s s' -> bytes_ok s') as Hlog.
  { intros s' H.
    destruct (logs_fields _ _ H) as (E1 & E2 & _ & E4 & E5 & E6 & E7 & _).
    unfold bytes_ok. rewrite E1, E2, E4, E5, E6, E7. conjs; assumption. }
  destruct a as [e| |heap|heap value|heap value|fs heap fnam|heap|m index];
    cbn [step].
  - destruct (loop_keeps toLocal e s) as (E1 & _ & E3 & E4 & _ & E6).
    pose proof (loop_intensity toLocal e s LAMPA) as IA.
    pose proof (loop_intensity toLocal e s LAMPB) as IB.
    cbn [intensity target_of] in IA, IB.
    destruct (refresh_time_keeps toLocal e s) as (R1 & _ & R3 & R4 & _).
    destruct (targets_bytes (refresh_time toLocal e s)) as [TA TB];
      [now rewrite R1 | now rewrite R3 | now rewrite R4 |].
    unfold bytes_ok. rewrite E1, E3, E4, E6, IA, IB. conjs; assumption.
  - unfold bytes_ok, timer1sec. cbn. conjs; assumption.
  - apply Hlog. apply dbgprint_logs.
  - destruct (setconf_fields heap value s) as (E1 & E2 & E3 & E4 & _).
    pose proof (settings_setconf heap value s Hlen) as Eset.
    assert (Forall is_byte (eeprom (fst (handle_setconf heap value s)))) as Hee.
    { rewrite eeprom_setconf_eq by exact Hlen. apply Forall_app. split.
      - apply parsed_bytes.
      - now apply Forall_skipn_bytes. }
    unfold bytes_ok. rewrite Eset, E1, E2, E3, E4, length_parsed.
    conjs; auto using parsed_bytes.
  - destruct (overrule_fields heap value s) as (E1 & E2 & _ & E4 & E5 & _).
    unfold bytes_ok. rewrite E1, E2, E4, E5.
    conjs; auto; unfold handle_overrule;
      destruct (0 <? WString.indexOf "," value);
      cbn [fst ovA ovB set_ovB set_ovA set_overrule];
      try apply to_uint8_byte.
    destruct (logs_fields _ _ (dbgprint_logs heap "HTTP overrule request" s))
      as (_ & _ & _ & _ & -> & _). exact Hb.
  - apply Hlog. apply file_request_logs.
  - apply Hlog. apply dbgprint_logs.
  - destruct (chunk_fields m index s) as (E1 & E2 & _ & E4 & E5 & E6 & E7).
    unfold bytes_ok. rewrite E1, E2, E4, E5, E6, E7. conjs; assumption.
Qed.

Lemma restart_bytes (b : boot_env) (s : state) :
  Forall is_byte (eeprom s) -> bytes_ok (fst (restart b s)).
Proof.
  intros He.
  destruct (restart_fields b s) as (E1 & E2 & _ & E4 & E5 & E6 & E7 & _).
  unfold bytes_ok. rewrite E1, E2, E4, E5, E6, E7.
  assert (is_byte 0) as H0 by (unfold is_byte; lia).
  conjs; auto.
  - rewrite length_app, length_firstn, repeat_length. lia.
  - apply Forall_app. split; [now apply Forall_firstn_bytes|].
    apply Forall_forall. intros x Hx. apply repeat_spec in Hx. now subst.
Qed.

End Restart.

(** X3: the table written by a set-schedule request is the table the device
    has after a restart, whatever happened in between short of another
    set-schedule request; the override is gone after the restart, both
    remembered intensities and the local time start from zero, and the
    restart does not write the persistent block. *)
Theorem schedule_survives_restart (toLocal : Z -> Z) (b : boot_env)
  (heap : Z) (value : string) (l : list action) (s : state) :
  List.length (settings s) = 48%nat ->
  existsb is_setconf l = false ->
  settings (fst (restart b (steps toLocal l (fst (handle_setconf heap value s)))))
  = settings (fst (handle_setconf heap value s))
  /\ overrule
       (fst (restart b (steps toLocal l (fst (handle_setconf heap value s)))))
     = false
  /\ intensityA
       (fst (restart b (steps toLocal l (fst (handle_setconf heap value s)))))
     = 0
  /\ intensityB
       (fst (restart b (steps toLocal l (fst (handle_setconf heap value s)))))
     = 0
  /\ ltime
       (fst (restart b (steps toLocal l (fst (handle_setconf heap value s)))))
     = 0
  /\ eeprom
       (fst (restart b (steps toLocal l (fst (handle_setconf heap value s)))))
     = eeprom (fst (handle_setconf heap value s)).
Proof.
  intros Hlen Hl.
  destruct (restart_fields b
              (steps toLocal l (fst (handle_setconf heap value s))))
    as (E1 & E2 & E3 & _ & _ & E6 & E7 & E8).
  rewrite E1, E2, E3, E6, E7, E8.
  destruct (steps_keep_schedule toLocal l (fst (handle_setconf heap value s)) Hl)
    as [_ ->].
  repeat split.
  pose proof (length_eeprom_setconf heap value s Hlen) as Hge.
  replace (48 - List.length (eeprom (fst (handle_setconf heap value s))))%nat
    with 0%nat by lia.
  cbn [repeat]. rewrite app_nil_r. now apply eeprom_setconf.
Qed.

Lemma schedule_survives_restart_witness :
  settings
    (fst (restart home_boot
            (steps cet [DoOverrule 9000 "5,5"; DoLoop (mkEnv 1000 false 0)]
               (fst (handle_setconf 9000 (request_of day_profile)
                       (power_on (repeat 0 512%nat)))))))
  = day_profile.
Proof.
  destruct (schedule_survives_restart cet home_boot 9000 (request_of day_profile)
              [DoOverrule 9000 "5,5"; DoLoop (mkEnv 1000 false 0)]
              (power_on (repeat 0 512%nat)) eq_refl eq_refl) as [H _].
  rewrite H. reflexivity.
Defined.

(** X4: when the persistent block holds bytes, the device is in a state
    where the table has 48 bytes and the override values and the
    remembered intensities are bytes after a restart and after any further
    passes of [loop], timer ticks and requests. *)
Theorem bytes_invariant (toLocal : Z -> Z) (b : boot_env) (l : list action)
  (s : state) :
  Forall is_byte (eeprom s) ->
  bytes_ok (steps toLocal l (fst (restart b s))).
Proof.
  intros H. apply restart_bytes with (b := b) in H.
  revert H. generalize (fst (restart b s)).
  induction l as [|a l IH]; intros s0 H0; [exact H0|].
  rewrite steps_cons. apply IH. now apply step_bytes.
Qed.

Lemma bytes_invariant_witness :
  bytes_ok
    (steps cet [DoSetconf 9000 "300,-1,7"; DoOverrule 9000 "999";
                DoLoop (mkEnv 1000 false 0)]
       (fst (restart home_boot (power_on (repeat 255 512%nat))))).
Proof.
  apply bytes_invariant. cbn [eeprom power_on].
  apply Forall_forall. intros x Hx. apply repeat_spec in Hx. subst x.
  unfold is_byte. lia.
Defined.

(** X5: every line in the log of a device that has restarted and then run
    any passes of [loop], timer ticks and requests is a C string of at most
    168 characters, so [cb_logging] can copy it with its line feed and
    terminator into [linebuf]; and the time prefix of [dbgprint] has 11
    characters, which fit [tbuf]. *)
Theorem log_lines_fit_buffers (toLocal : Z -> Z) (b : boot_env)
  (l : list action) (s : state) (t : Z) :
  Forall line_ok (dbglines (steps toLocal l (fst (restart b s))))
  /\ (String.length (tbuf t) + 1 <= 16)%nat.
Proof.
  split.
  - apply steps_lines, restart_lines.
  - destruct (tbuf_ok t) as [-> _]. lia.
Qed.

(** ** More on the requests *)

Section Requests.

Import WString.

Lemma parsed_stall (n : nat) (rest : string) :
  parsed n (String ","%char rest) = repeat 0 n.
Proof.
  induction n as [|n IH]; [reflexivity|].
  cbn [parsed repeat].
  replace (advance (String ","%char rest)) with (String ","%char rest).
  - rewrite IH. reflexivity.
  - unfold advance, indexOf. cbn [String.length Nat.eqb].
    rewrite strstr_comma_here. reflexivity.
Qed.

Lemma parsed_terminated_app (vs : list Z) :
  forall n tail, Forall in_long vs ->
  parsed n (comma_terminated (map ltoa vs) ++ tail)
  = map Int.to_uint8 (firstn n vs) ++ parsed (n - List.length vs) tail.
Proof.
  induction vs as [|v vs IH]; intros n tail H.
  - cbn [map comma_terminated append List.length].
    now rewrite firstn_nil, Nat.sub_0_r.
  - inversion_clear H as [|? ? Hv Hvs]. destruct n as [|n]; [reflexivity|].
    cbn [map comma_terminated].
    replace ((ltoa v ++ "," ++ comma_terminated (map ltoa vs)) ++ tail)%string
      with (ltoa v ++ "," ++ (comma_terminated (map ltoa vs) ++ tail))%string
      by (now rewrite append_assoc).
    rewrite (parsed_cons _ _ _ Hv), (IH n tail Hvs). reflexivity.
Qed.

Lemma fill_last_long (n : nat) :
  forall v vs, (n <= S (List.length vs))%nat ->
  fill_last n v vs = firstn n (v :: vs).
Proof.
  induction n as [|n IH]; intros v vs H; [reflexivity|].
  destruct vs as [|v' vs]; cbn [fill_last firstn].
  - cbn [List.length] in H. replace n with 0%nat by lia. reflexivity.
  - cbn [List.length] in H. rewrite IH by lia. reflexivity.
Qed.

Lemma map_to_uint8_bytes (l : list Z) :
  Forall is_byte l -> map Int.to_uint8 l = l.
Proof.
  induction 1 as [|v l Hv _ IH]; [reflexivity|].
  cbn [map]. rewrite IH. f_equal. unfold Int.to_uint8, is_byte in *.
  apply Z.mod_small. lia.
Qed.

Lemma map_of_uint8_bytes (l : list Z) :
  Forall is_byte l -> map of_uint8 l = map ltoa l.
Proof.
  induction 1 as [|v l Hv _ IH]; [reflexivity|].
  cbn [map]. rewrite IH. f_equal. unfold of_uint8, ltoa, is_byte in *.
  destruct (Z.ltb_spec v 0); [lia | reflexivity].
Qed.

Lemma bytes_in_long (l : list Z) : Forall is_byte l -> Forall in_long l.
Proof.
  apply Forall_impl. intros v. unfold is_byte, in_long, Int.LONG_MIN, Int.LONG_MAX.
  lia.
Qed.

Lemma indexOf_no_comma (ds : string) :
  str_all not_comma ds = true -> indexOf "," ds = -1.
Proof.
  intros H. unfold indexOf. rewrite (strstr_comma_none _ H).
  destruct (Nat.eqb (String.length ds) 0); reflexivity.
Qed.

End Requests.

(** X6: the reply of the get-schedule handler, sent back as a set-schedule
    request, leaves the table as it was, for every table of 48 bytes. *)
Theorem getconf_reply_sets_same_table (heap heap' : Z) (s : state) :
  List.length (settings s) = 48%nat ->
  Forall is_byte (settings s) ->
  settings
    (fst (handle_setconf heap' (body_of (snd (handle_getconf heap s)))
            (fst (handle_getconf heap s))))
  = settings s.
Proof.
  intros Hlen Hb.
  rewrite settings_setconf by (now rewrite settings_getconf).
  unfold handle_getconf. cbn [snd body_of]. rewrite settings_dbgprint.
  rewrite getconf_reply by exact Hlen.
  rewrite map_of_uint8_bytes by exact Hb.
  rewrite parsed_comma_terminated by (now apply bytes_in_long).
  rewrite fill_zero_short by lia. rewrite Hlen.
  cbn [Nat.sub repeat]. rewrite app_nil_r. now apply map_to_uint8_bytes.
Qed.

Lemma getconf_reply_sets_same_table_witness :
  settings
    (fst (handle_setconf 9000 (body_of (snd (handle_getconf 9000 evening)))
            (fst (handle_getconf 9000 evening))))
  = day_profile.
Proof.
  rewrite (getconf_reply_sets_same_table 9000 9000 evening).
  - reflexivity.
  - reflexivity.
  - cbn [settings evening set_ltime set_settings]. unfold day_profile, is_byte.
    repeat constructor; discriminate.
Defined.

(** X7: an empty field stops the parse loop of the set-schedule handler: of
    a request whose first numbers, of any size, are each followed by a
    comma and then meet another comma, each number before the empty field
    is stored as the byte [toInt] yields for it (the number saturated to
    the range of a [long], then modulo 256) and every slot after them
    becomes 0, whatever text follows. *)
Theorem setconf_empty_field_zeroes_rest (heap : Z) (vs : list Z)
  (rest : string) (s : state) :
  List.length (settings s) = 48%nat ->
  (List.length vs <= 48)%nat ->
  settings
    (fst (handle_setconf heap
            (comma_terminated (map dec vs) ++ String ","%char rest) s))
  = map stored_byte vs ++ repeat 0 (48 - List.length vs).
Proof.
  intros Hlen Hk. rewrite settings_setconf by exact Hlen.
  rewrite parsed_terminated_any.
  rewrite firstn_all2 by exact Hk. now rewrite parsed_stall.
Qed.

Lemma setconf_empty_field_zeroes_rest_witness :
  settings (fst (handle_setconf 9000 "3000000000,20,,30,40,50" evening))
  = [255; 20] ++ repeat 0 46.
Proof.
  pose proof (setconf_empty_field_zeroes_rest 9000 [3000000000; 20] "30,40,50"
                evening) as H.
  change (comma_terminated (map dec [3000000000; 20]) ++ String "," "30,40,50")%string
    with "3000000000,20,,30,40,50"%string in H.
  rewrite H.
  - reflexivity.
  - reflexivity.
  - cbn. lia.
Defined.

(** X8: the set-schedule handler stores the first 48 numbers of a request,
    each as the byte [toInt] yields for it (the number saturated to the
    range of a [long], then modulo 256), and ignores the numbers after
    them, whatever their size. *)
Theorem setconf_ignores_extra_values (heap : Z) (vs extra : list Z)
  (s : state) :
  List.length (settings s) = 48%nat ->
  List.length vs = 48%nat ->
  settings (fst (handle_setconf heap (request_any (vs ++ extra)) s))
  = map stored_byte vs.
Proof.
  intros Hlen Hk. rewrite settings_setconf by exact Hlen.
  destruct vs as [|v vs]; [discriminate Hk|].
  change ((v :: vs) ++ extra) with (v :: (vs ++ extra)) in *.
  rewrite parsed_request_any.
  rewrite fill_last_long by (rewrite length_app; cbn [List.length] in Hk; lia).
  change (v :: (vs ++ extra)) with ((v :: vs) ++ extra).
  rewrite <- Hk, firstn_length_app. reflexivity.
Qed.

Lemma setconf_ignores_extra_values_witness :
  settings
    (fst (handle_setconf 9000
            (request_any (day_profile ++ [77; 3000000000; 99]))
            (power_on (repeat 0 512%nat))))
  = day_profile.
Proof.
  rewrite (setconf_ignores_extra_values 9000 day_profile [77; 3000000000; 99]).
  - reflexivity.
  - reflexivity.
  - reflexivity.
Defined.

(** X9: an overrule request ["a,b"], with numbers of any size, switches the
    override on with the bytes [toInt] yields for [a] and [b] (each number
    saturated to the range of a [long], then modulo 256); a request with
    the single number [a] switches it on with the byte of [a] and leaves
    the second intensity as it was; and no overrule request touches the
    table or the persistent block. *)
Theorem overrule_request_parsing (heap a b : Z) (value : string) (s : state) :
  (overrule (fst (handle_overrule heap (request_any [a; b]) s)) = true
   /\ ovA (fst (handle_overrule heap (request_any [a; b]) s)) = stored_byte a
   /\ ovB (fst (handle_overrule heap (request_any [a; b]) s)) = stored_byte b)
  /\ (overrule (fst (handle_overrule heap (request_any [a]) s)) = true
      /\ ovA (fst (handle_overrule heap (request_any [a]) s)) = stored_byte a
      /\ ovB (fst (handle_overrule heap (request_any [a]) s)) = ovB s)
  /\ settings (fst (handle_overrule heap value s)) = settings s
  /\ eeprom (fst (handle_overrule heap value s)) = eeprom s.
Proof.
  destruct (logs_fields _ _ (dbgprint_logs heap "HTTP overrule request" s))
    as (_ & _ & _ & _ & Eb & _).
  split; [|split].
  - change (request_any [a; b]) with (dec a ++ "," ++ dec b)%string.
    pose proof (advance_sep (dec a) (dec b) (dec_not_comma a) (dec_nonempty a))
      as Hadv.
    unfold advance in Hadv. unfold handle_overrule. cbn [fst].
    rewrite indexOf_sep in * by apply dec_not_comma.
    pose proof (dec_nonempty a) as Hlen.
    replace (0 <? Z.of_nat (String.length (dec a))) with true in *
      by (symmetry; apply Z.ltb_lt; lia).
    rewrite Hadv. cbn [overrule ovA ovB set_ovB set_ovA set_overrule].
    rewrite <- (append_nil_r (dec b)) at 2.
    rewrite toInt_dec by reflexivity. rewrite toInt_dec by exact I.
    repeat split.
  - change (request_any [a]) with (dec a).
    unfold handle_overrule.
    rewrite indexOf_no_comma by apply dec_not_comma.
    cbn [Z.ltb Z.compare fst overrule ovA ovB set_ovA set_overrule].
    rewrite <- (append_nil_r (dec a)).
    rewrite toInt_dec by exact I. now repeat split.
  - destruct (overrule_fields heap value s) as (E1 & E2 & _). now split.
Qed.

(** ** The local clock between two time updates *)

Section Clock.

Lemma iter_timer_fields (n : nat) (s : state) :
  ltime (Nat.iter n timer1sec s) = ltime s + Z.of_nat n
  /\ settings (Nat.iter n timer1sec s) = settings s
  /\ overrule (Nat.iter n timer1sec s) = overrule s.
Proof.
  induction n as [|n (IH1 & IH2 & IH3)].
  - change (Nat.iter 0 timer1sec s) with s. repeat split. lia.
  - rewrite Nat.iter_succ.
    change (ltime (timer1sec (Nat.iter n timer1sec s)))
      with (ltime (Nat.iter n timer1sec s) + 1).
    change (settings (timer1sec (Nat.iter n timer1sec s)))
      with (settings (Nat.iter n timer1sec s)).
    change (overrule (timer1sec (Nat.iter n timer1sec s)))
      with (overrule (Nat.iter n timer1sec s)).
    repeat split; [lia | assumption..].
Qed.

Lemma hour_next (t : Z) :
  0 <= t -> t + 3600 < 4294967296 ->
  TimeLib.hour (t + 3600) = (TimeLib.hour t + 1) mod 24.
Proof.
  intros H0 H1. unfold TimeLib.hour, Int.to_uint32.
  rewrite (Z.mod_small t 4294967296), (Z.mod_small (t + 3600) 4294967296) by lia.
  replace (t + 3600) with (t + 1 * 3600) by lia.
  rewrite Z.div_add by lia. now rewrite Z.add_mod_idemp_l by lia.
Qed.

End Clock.

(** X10: 3600 firings of the one-second timer move the local time into the
    next hour (hour 23 is followed by hour 0), and with the override off
    the targets are then the table entries of that hour; this holds between
    time updates as long as the local time fits 32 bits. *)
Theorem timer_moves_to_next_hour (s : state) (c : pin) :
  List.length (settings s) = 48%nat ->
  overrule s = false ->
  0 <= ltime s ->
  ltime s + 3600 < 4294967296 ->
  TimeLib.hour (ltime (Nat.iter 3600 timer1sec s))
  = (TimeLib.hour (ltime s) + 1) mod 24
  /\ nth_error (settings s)
       (Z.to_nat ((TimeLib.hour (ltime s) + 1) mod 24) * 2 + channel c)
     = Some (target_of c (targets (Nat.iter 3600 timer1sec s))).
Proof.
  intros Hlen Ho H0 H1.
  destruct (iter_timer_fields 3600 s) as (Et & Es & Eo).
  assert (TimeLib.hour (ltime (Nat.iter 3600 timer1sec s))
          = (TimeLib.hour (ltime s) + 1) mod 24) as Eh.
  { rewrite Et. change (Z.of_nat 3600) with 3600. now apply hour_next. }
  split; [exact Eh|].
  rewrite <- Eh, <- Es. apply targets_schedule; congruence.
Qed.

Lemma timer_moves_to_next_hour_witness :
  TimeLib.hour (ltime (Nat.iter 3600 timer1sec evening)) = 21.
Proof.
  destruct (timer_moves_to_next_hour evening LAMPA) as [H _].
  - reflexivity.
  - reflexivity.
  - cbn. lia.
  - cbn. lia.
  - rewrite H. reflexivity.
Defined.

(** ** Content types and password files *)

Section ContentTypes.

Import WString.

Lemma substring_add_app (p t : string) (k : nat) :
  substring (String.length p + k) (p ++ t) = substring k t.
Proof. induction p as [|c p IH]; [reflexivity | exact IH]. Qed.

Lemma endsWith_app_short (suffix p t : string) :
  (String.length suffix <= String.length t)%nat ->
  endsWith suffix (p ++ t) = endsWith suffix t.
Proof.
  intros H. unfold endsWith. rewrite length_append.
  replace (Nat.ltb (String.length p + String.length t) (String.length suffix))
    with false by (symmetry; apply Nat.ltb_ge; lia).
  replace (Nat.ltb (String.length t) (String.length suffix))
    with false by (symmetry; apply Nat.ltb_ge; lia).
  replace (String.length p + String.length t - String.length suffix)%nat
    with (String.length p + (String.length t - String.length suffix))%nat by lia.
  now rewrite substring_add_app.
Qed.

Lemma endsWith_refl (t : string) : endsWith t t = true.
Proof.
  unfold endsWith. rewrite Nat.ltb_irrefl, Nat.sub_diag. apply String.eqb_refl.
Qed.

Lemma endsWith_app (p t : string) : endsWith t (p ++ t) = true.
Proof. rewrite endsWith_app_short by apply Nat.le_refl. apply endsWith_refl. Qed.

Lemma last_char_app (p : string) (c : ascii) (t : string) :
  last_char (p ++ String c t) = last_char (String c t).
Proof.
  induction p as [|x p IH]; [reflexivity|].
  cbn [append]. rewrite <- IH. destruct p; reflexivity.
Qed.

Lemma endsWith_app_false (suffix t p : string) :
  suffix <> EmptyString -> t <> EmptyString ->
  (if Nat.leb (String.length suffix) (String.length t)
   then endsWith suffix t
   else Ascii.eqb (last_char suffix) (last_char t)) = false ->
  endsWith suffix (p ++ t) = false.
Proof.
  intros Hs Ht H.
  destruct (Nat.leb_spec (String.length suffix) (String.length t)) as [Hle|Hgt].
  - now rewrite endsWith_app_short.
  - destruct suffix as [|c s]; [now elim Hs|].
    destruct t as [|c' t']; [now elim Ht|].
    destruct (endsWith (String c s) (p ++ String c' t')) eqn:E; [|reflexivity].
    apply (endsWith_last_char _ _ c s eq_refl) in E.
    rewrite last_char_app in E. rewrite E, Ascii.eqb_refl in H. discriminate H.
Qed.

Ltac ends_with p t :=
  repeat match goal with
         | |- context [endsWith ?suffix (p ++ t)] =>
             first [ rewrite (endsWith_app_false suffix t p)
                       by (reflexivity || discriminate)
                   | rewrite (endsWith_app p t) ]
         end.

Lemma content_type_of_extension (p : string) :
  getContentType (p ++ ".html") = "text/html"%string
  /\ getContentType (p ++ ".png") = "image/png"%string
  /\ getContentType (p ++ ".gif") = "image/gif"%string
  /\ getContentType (p ++ ".jpg") = "image/jpeg"%string
  /\ getContentType (p ++ ".ico") = "image/x-icon"%string
  /\ getContentType (p ++ ".css") = "text/css"%string
  /\ getContentType (p ++ ".zip") = "application/x-zip"%string
  /\ getContentType (p ++ ".gz") = "application/x-gzip"%string
  /\ getContentType (p ++ ".pw") = EmptyString.
Proof.
  unfold getContentType. repeat split.
  - ends_with p ".html"%string. reflexivity.
  - ends_with p ".png"%string. reflexivity.
  - ends_with p ".gif"%string. reflexivity.
  - ends_with p ".jpg"%string. reflexivity.
  - ends_with p ".ico"%string. reflexivity.
  - ends_with p ".css"%string. reflexivity.
  - ends_with p ".zip"%string. reflexivity.
  - ends_with p ".gz"%string. reflexivity.
  - ends_with p ".pw"%string. reflexivity.
Qed.

End ContentTypes.

(** X11: a path that ends in one of the nine extensions [getContentType]
    names gets the content type of that extension, whatever comes before
    the extension; so a page [.html] is handed to the file sender as
    [text/html]. *)
Theorem content_type_table (fs : list string) (heap : Z) (p : string)
  (s : state) :
  (getContentType (p ++ ".html") = "text/html"%string
   /\ getContentType (p ++ ".png") = "image/png"%string
   /\ getContentType (p ++ ".gif") = "image/gif"%string
   /\ getContentType (p ++ ".jpg") = "image/jpeg"%string
   /\ getContentType (p ++ ".ico") = "image/x-icon"%string
   /\ getContentType (p ++ ".css") = "text/css"%string
   /\ getContentType (p ++ ".zip") = "application/x-zip"%string
   /\ getContentType (p ++ ".gz") = "application/x-gzip"%string
   /\ getContentType (p ++ ".pw") = EmptyString)
  /\ snd (onFileRequest fs heap (p ++ ".html") s)
     = send_file fs (p ++ ".html") "text/html".
Proof.
  split; [apply content_type_of_extension|].
  unfold onFileRequest.
  destruct (content_type_of_extension p) as (-> & _). reflexivity.
Qed.


(** X13: [getEncryptionType] returns a name of exactly four characters for
    every type, known or not, so the [%4s] of the scan listing never pads
    it. *)
Theorem encryption_name_has_four_chars (thisType : Z) :
  String.length (getEncryptionType thisType) = 4%nat
  /\ pad_left 4 (getEncryptionType thisType) = getEncryptionType thisType.
Proof.
  unfold getEncryptionType.
  repeat match goal with
         | |- context [if ?b then _ else _] => destruct b
         end; split; reflexivity.
Qed.

(** ** Choosing the network *)

Section Networks.

Variable fs : list string.

Lemma scan_loop_selects (heap : nat -> Z) (nets : list network) :
  forall i maxsig ssid s,
  (snd (scan_loop fs heap nets i maxsig ssid s) = (maxsig, ssid)
   /\ forall n, In n nets -> acceptable fs n -> net_rssi n <= maxsig)
  \/ (exists pre n post,
        nets = pre ++ n :: post
        /\ acceptable fs n
        /\ snd (scan_loop fs heap nets i maxsig ssid s) = (net_rssi n, net_ssid n)
        /\ maxsig < net_rssi n
        /\ (forall x, In x pre -> acceptable fs x -> net_rssi x < net_rssi n)
        /\ (forall x, In x post -> acceptable fs x -> net_rssi x <= net_rssi n)).
Proof.
  induction nets as [|n rest IH]; intros i maxsig ssid s.
  - left. split; [reflexivity | intros n []].
  - cbn [scan_loop]. unfold acceptable in *.
    destruct (LittleFS_exists fs (pw_path (net_ssid n))) eqn:Hfound;
      [destruct (Z.ltb_spec maxsig (net_rssi n)) as [Hlt|Hge]|];
      cbn [andb].
    + match goal with
      | |- context [scan_loop fs heap rest ?j ?m ?t ?x] =>
          destruct (IH j m t x) as [[E Hall]|(pre & n' & post & -> & Hn' & E & Hm & Hpre & Hpost)]
      end.
      * right. exists [], n, rest. repeat split; auto. intros x [].
      * right. exists (n :: pre), n', post. repeat split; auto; try lia.
        intros x [<-|Hx] Hacc; [lia | now apply Hpre].
    + match goal with
      | |- context [scan_loop fs heap rest ?j ?m ?t ?x] =>
          destruct (IH j m t x) as [[E Hall]|(pre & n' & post & -> & Hn' & E & Hm & Hpre & Hpost)]
      end.
      * left. split; [exact E|]. intros x [<-|Hx] Hacc; [lia | now apply Hall].
      * right. exists (n :: pre), n', post. repeat split; auto.
        intros x [<-|Hx] Hacc; [lia | now apply Hpre].
    + match goal with
      | |- context [scan_loop fs heap rest ?j ?m ?t ?x] =>
          destruct (IH j m t x) as [[E Hall]|(pre & n' & post & -> & Hn' & E & Hm & Hpre & Hpost)]
      end.
      * left. split; [exact E|].
        intros x [<-|Hx] Hacc; [congruence | now apply Hall].
      * right. exists (n :: pre), n', post. repeat split; auto.
        intros x [<-|Hx] Hacc; [congruence | now apply Hpre].
Qed.

Lemma listNetworks_ssid (heap : nat -> Z) (numSsid : Z) (nets : list network)
  (ssid : string) (s : state) :
  numSsid <> -1 ->
  exists i s2,
    snd (listNetworks fs heap numSsid nets ssid s)
    = snd (snd (scan_loop fs heap (firstn (Z.to_nat numSsid) nets) i (-1000)
                  ssid s2)).
Proof.
  intros H. unfold listNetworks.
  destruct (Z.eqb_spec numSsid (-1)) as [E|_]; [contradiction|].
  eexists _, _.
  destruct (scan_loop _ _ _ _ _ _ _) as [s3 [m ssid']] eqn:E. cbn [snd].
  rewrite E. reflexivity.
Qed.

End Networks.

(** X14: [listNetworks] leaves the global [ssid] as it was when the scan
    fails with -1 or when no scanned network with a stored password file is
    stronger than -1000 dBm.  Otherwise it selects a scanned network whose
    password file is stored and whose signal is the strongest among those;
    of several equally strong ones it selects the first in scan order. *)
Theorem listNetworks_selects_strongest (fs : list string) (heap : nat -> Z)
  (numSsid : Z) (nets : list network) (ssid : string) (s : state) :
  (numSsid = -1 /\ snd (listNetworks fs heap numSsid nets ssid s) = ssid)
  \/ (numSsid <> -1
      /\ snd (listNetworks fs heap numSsid nets ssid s) = ssid
      /\ forall n, In n (firstn (Z.to_nat numSsid) nets) ->
                   acceptable fs n -> net_rssi n <= -1000)
  \/ (numSsid <> -1
      /\ exists pre n post,
           firstn (Z.to_nat numSsid) nets = pre ++ n :: post
           /\ acceptable fs n
           /\ snd (listNetworks fs heap numSsid nets ssid s) = net_ssid n
           /\ -1000 < net_rssi n
           /\ (forall x, In x pre -> acceptable fs x -> net_rssi x < net_rssi n)
           /\ (forall x, In x post -> acceptable fs x ->
                         net_rssi x <= net_rssi n)).
Proof.
  destruct (Z.eq_dec numSsid (-1)) as [E|Hne].
  - left. split; [exact E|]. subst numSsid. reflexivity.
  - right. destruct (listNetworks_ssid fs heap numSsid nets ssid s Hne)
      as (i & s2 & ->).
    destruct (scan_loop_selects fs heap (firstn (Z.to_nat numSsid) nets) i
                (-1000) ssid s2)
      as [[E Hall]|(pre & n & post & Hsplit & Hn & E & Hm & Hpre & Hpost)].
    + left. rewrite E. auto.
    + right. split; [exact Hne|]. exists pre, n, post. rewrite E. auto 10.
Qed.

(** ** The password of the network *)

Section Password.

Import WString.

Lemma readStringUntil_line (pw rest : string) :
  str_all no_line_feed pw = true ->
  readStringUntil LF (pw ++ String LF rest) = pw.
Proof.
  induction pw as [|c pw IH]; intros H; [reflexivity|].
  cbn [str_all] in H. apply andb_prop in H as [Hc Hpw].
  unfold no_line_feed in Hc. apply negb_true_iff in Hc.
  cbn [append readStringUntil]. now rewrite Hc, IH.
Qed.

Lemma trim_right_snoc (y : string) (c : ascii) :
  isspace c = true -> trim_right (y ++ String c "") = trim_right y.
Proof.
  intros Hc. induction y as [|a y IH].
  - cbn. now rewrite Hc.
  - cbn [append trim_right]. now rewrite IH.
Qed.

Lemma trim_snoc (x : string) (c : ascii) :
  isspace c = true -> trim (x ++ String c "") = trim x.
Proof.
  intros Hc. unfold trim. induction x as [|a x IH].
  - cbn. now rewrite Hc.
  - cbn [append skip_space]. destruct (isspace a); [exact IH|].
    apply (trim_right_snoc (String a x) c Hc).
Qed.

Lemma readStringUntil_all (x : string) :
  str_all no_line_feed x = true -> readStringUntil LF x = x.
Proof.
  induction x as [|c x IH]; intros H; [reflexivity|].
  cbn [str_all] in H. apply andb_prop in H as [Hc Hx].
  unfold no_line_feed in Hc. apply negb_true_iff in Hc.
  cbn [readStringUntil]. now rewrite Hc, IH.
Qed.

Lemma trim_blank_left (lead x : string) :
  str_all is_blank lead = true -> trim (lead ++ x) = trim x.
Proof.
  induction lead as [|c lead IH]; intros H; [reflexivity|].
  cbn [str_all] in H. apply andb_prop in H as [Hc Hl].
  unfold is_blank in Hc. apply andb_prop in Hc as [Hc _].
  unfold trim in *. cbn [append skip_space]. rewrite Hc. now apply IH.
Qed.

Lemma trim_blank_right (trail : string) :
  forall x, str_all is_blank trail = true -> trim (x ++ trail) = trim x.
Proof.
  induction trail as [|c trail IH]; intros x H; [now rewrite append_nil_r|].
  cbn [str_all] in H. apply andb_prop in H as [Hc Ht].
  unfold is_blank in Hc. apply andb_prop in Hc as [Hc _].
  replace (x ++ String c trail)%string with ((x ++ String c "") ++ trail)%string
    by (now rewrite append_assoc).
  rewrite (IH _ Ht). now apply trim_snoc.
Qed.

Lemma blank_no_line_feed (x : string) :
  str_all is_blank x = true -> str_all no_line_feed x = true.
Proof.
  apply str_all_impl. intros c H. unfold is_blank in H.
  now apply andb_prop in H as [_ H].
Qed.

End Password.

(** X15: the password [connectwifi] hands to [WiFi.begin] is the first line
    of the network's password file without the white space around it: blanks
    before and after it, such as the carriage return of a CR LF line end,
    are dropped, and what follows the first line feed is not read. *)
Theorem wifi_password_is_first_line (files : list (string * string))
  (heap : nat -> Z) (connected : bool) (ip : Z * Z * Z * Z)
  (ssid lead pw trail ending : string) (s : state) :
  str_all is_blank lead = true ->
  str_all is_blank trail = true ->
  str_all no_line_feed pw = true ->
  trim pw = pw ->
  (ending = EmptyString \/ exists rest, ending = String WString.LF rest) ->
  file_content files (pw_path ssid) = (lead ++ pw ++ trail ++ ending)%string ->
  wifi_password files ssid = pw
  /\ snd (connectwifi files heap connected ip ssid s)
     = (WString.c_str ssid, WString.c_str pw).
Proof.
  intros Hlead Htrail Hpw Htrim Hend Hfile.
  assert (wifi_password files ssid = pw) as E.
  { unfold wifi_password. rewrite Hfile.
    assert (str_all no_line_feed (lead ++ pw ++ trail) = true) as Hno.
    { rewrite !str_all_append, Hpw.
      now rewrite (blank_no_line_feed _ Hlead), (blank_no_line_feed _ Htrail). }
    replace (lead ++ pw ++ trail ++ ending)%string
      with ((lead ++ pw ++ trail) ++ ending)%string
      by (now rewrite !append_assoc).
    assert (readStringUntil WString.LF ((lead ++ pw ++ trail) ++ ending)
            = (lead ++ pw ++ trail)%string) as ->.
    { destruct Hend as [->|[rest ->]].
      - rewrite append_nil_r. now apply readStringUntil_all.
      - now apply readStringUntil_line. }
    rewrite trim_blank_left by exact Hlead.
    rewrite trim_blank_right by exact Htrail. exact Htrim. }
  split; [exact E|].
  unfold connectwifi. rewrite E. destruct ip as [[[a b] c] d].
  destruct (negb connected); reflexivity.
Qed.

Lemma wifi_password_is_first_line_witness :
  wifi_password home_files "home" = "secret"%string.
Proof.
  destruct (wifi_password_is_first_line home_files (fun _ => 30000) true
              (192, 168, 1, 20) "home" " " "secret"
              (String (ascii_of_nat 13) EmptyString)
              (String WString.LF "second line") (power_on []))
    as [H _].
  - reflexivity.
  - reflexivity.
  - reflexivity.
  - reflexivity.
  - right. exists "second line"%string. reflexivity.
  - reflexivity.
  - exact H.
Defined.


(** ** More on streaming the log *)

Section Live.

Import WString.

Variable toLocal : Z -> Z.

Lemma cb_while_length (m : nat) :
  forall lines c out,
  (List.length (snd (cb_while m lines c out)) <= List.length out + m)%nat.
Proof.
  induction m as [|m IH]; intros lines c out; cbn [cb_while].
  - cbn [snd]. lia.
  - destruct (Ascii.eqb (deref (cb_linebuf c) (cb_p_in c)) NUL);
      [destruct (Nat.eqb (cb_i c) (cb_nrl c))|].
    + cbn [snd]. lia.
    + match goal with
      | |- context [cb_while m lines ?c1 ?o] => specialize (IH lines c1 o)
      end.
      rewrite length_app in IH. cbn [List.length] in IH. lia.
    + match goal with
      | |- context [cb_while m lines ?c1 ?o] => specialize (IH lines c1 o)
      end.
      rewrite length_app in IH. cbn [List.length] in IH. lia.
Qed.

Lemma cb_while_app (lines0 extra : list string) (m : nat) :
  forall c out,
  (cb_i c <= cb_nrl c)%nat -> (cb_nrl c <= List.length lines0)%nat ->
  cb_while m (lines0 ++ extra) c out = cb_while m lines0 c out.
Proof.
  induction m as [|m IH]; intros c out Hi Hn; [reflexivity|].
  cbn [cb_while].
  destruct (Ascii.eqb (deref (cb_linebuf c) (cb_p_in c)) NUL);
    [destruct (Nat.eqb_spec (cb_i c) (cb_nrl c)) as [E|Hne]|].
  - reflexivity.
  - rewrite app_nth1 by lia. apply IH; cbn [cb_i cb_nrl]; lia.
  - apply IH; cbn [cb_i cb_nrl]; lia.
Qed.

Lemma cb_logging_live (lines0 extra : list string) (m filled : nat)
  (s : state) :
  Forall line_ok lines0 ->
  dbglines s = lines0 ++ extra ->
  filled <> 0%nat ->
  cb_ok lines0 (cb s) ->
  remaining lines0 (cb s) = skipn filled (log_stream lines0) ->
  snd (cb_logging m filled s) = firstn m (skipn filled (log_stream lines0))
  /\ dbglines (fst (cb_logging m filled s)) = dbglines s
  /\ cb_ok lines0 (cb (fst (cb_logging m filled s)))
  /\ remaining lines0 (cb (fst (cb_logging m filled s)))
     = skipn (filled + List.length (snd (cb_logging m filled s)))
         (log_stream lines0).
Proof.
  intros Hlines Hd Hf Hok Hrem. unfold cb_logging.
  destruct (Nat.eqb_spec filled 0) as [E|_]; [contradiction|].
  rewrite Hd. destruct Hok as (Hbuf & Hp & Hi & Hn).
  rewrite cb_while_app by assumption.
  destruct (cb_while_spec lines0 Hlines m (cb s) [])
    as (c' & Hrun & Hok' & Hrem'); [repeat split; assumption|].
  rewrite Hrun. cbn [fst snd app set_cb dbglines cb].
  split; [now rewrite Hrem|]. split; [now rewrite Hd|]. split; [exact Hok'|].
  rewrite Hrem', Hrem, (skipn_firstn_length m), skipn_skipn.
  f_equal. lia.
Qed.

Ltac loop_fields :=
  unfold loop, update_A, update_B, targets, refresh_time;
  cbn [time_ok set_time_ok rfrltm overrule];
  repeat match goal with
         | |- context [if ?b then _ else _] => destruct b
         end;
  reflexivity.

Lemma loop_cb (e : env) (s : state) : cb (fst (loop toLocal e s)) = cb s.
Proof. loop_fields. Qed.

Lemma step_keeps_cb (a : action) (s : state) :
  is_chunk a = false -> cb (step toLocal a s) = cb s.
Proof.
  destruct a as [e| |heap|heap value|heap value|fs heap fnam|heap|m index];
    cbn [step is_chunk]; intros H; try discriminate H.
  - apply loop_cb.
  - reflexivity.
  - now destruct (logs_fields _ _ (dbgprint_logs heap "HTTP getconf request" s))
      as (_ & _ & _ & _ & _ & _ & _ & _ & ?).
  - now destruct (setconf_fields heap value s) as (_ & _ & _ & _ & _ & ?).
  - now destruct (overrule_fields heap value s) as (_ & _ & _ & _ & _ & ?).
  - now destruct (logs_fields _ _ (file_request_logs fs heap fnam s))
      as (_ & _ & _ & _ & _ & _ & _ & _ & ?).
  - now destruct (logs_fields _ _ (dbgprint_logs heap "HTTP logging request" s))
      as (_ & _ & _ & _ & _ & _ & _ & _ & ?).
Qed.

Lemma steps_keep_cb (l : list action) :
  forall s, existsb is_chunk l = false ->
  cb (steps toLocal l s) = cb s
  /\ exists new, dbglines (steps toLocal l s) = dbglines s ++ new.
Proof.
  intros s H. split.
  - revert s. induction l as [|a l IH]; intros s; [reflexivity|].
    cbn [existsb] in H. apply orb_false_iff in H as [Ha Hl].
    rewrite steps_cons, (IH Hl). now apply step_keeps_cb.
  - destruct (steps_grow toLocal l s) as (new & E & _). now exists new.
Qed.

Lemma chunked_live_spec (lines0 : list string) (calls : list (nat * list action)) :
  Forall line_ok lines0 ->
  forallb quiet calls = true ->
  forall filled s extra,
  dbglines s = lines0 ++ extra ->
  filled <> 0%nat ->
  cb_ok lines0 (cb s) ->
  remaining lines0 (cb s) = skipn filled (log_stream lines0) ->
  snd (chunked_live toLocal calls filled s)
  = slices (map fst calls) (skipn filled (log_stream lines0)).
Proof.
  intros Hlines. induction calls as [|[m acts] calls IH];
    intros Hq filled s extra Hd Hf Hok Hrem; [reflexivity|].
  cbn [forallb] in Hq. apply andb_prop in Hq as [Hq1 Hq2].
  unfold quiet in Hq1. cbn [snd] in Hq1. apply negb_true_iff in Hq1.
  destruct (cb_logging_live lines0 extra m filled s Hlines Hd Hf Hok Hrem)
    as (Hout & Hdbg & Hok' & Hrem').
  cbn [chunked_live map fst slices].
  destruct (cb_logging m filled s) as [s1 chunk]. cbn [fst snd] in *.
  destruct (steps_keep_cb acts s1 Hq1) as (Ecb & new & Enew).
  specialize (IH Hq2 (filled + List.length chunk)%nat (steps toLocal acts s1)
                (extra ++ new)).
  destruct (chunked_live toLocal calls _ (steps toLocal acts s1)) as [s3 chunks].
  cbn [snd] in *. rewrite IH.
  - rewrite Hout at 1. f_equal.
    rewrite (skipn_firstn_length m), <- Hout, skipn_skipn.
    f_equal. f_equal. lia.
  - rewrite Enew, Hdbg, Hd. now rewrite app_assoc.
  - lia.
  - now rewrite Ecb.
  - now rewrite Ecb.
Qed.

Lemma log_stream_nonempty (lines : list string) :
  lines <> [] -> (0 < List.length (log_stream lines))%nat.
Proof.
  destruct lines as [|l lines]; [intros H; now elim H|]. intros _.
  unfold log_stream. cbn [map List.concat].
  rewrite !length_app. cbn [List.length]. lia.
Qed.

End Live.

(** X16: in a pass over the log that starts with index 0, no call of
    [cb_logging] puts more than its [maxLen] bytes into the buffer, for
    every log of lines that fit [linebuf] and whatever the statics held
    before the pass; this also holds with an empty log, with buffers of
    size 0 and with passes of [loop], timer ticks and other requests
    between the calls.  A call with index 0 on an empty log puts
    nothing. *)
Theorem cb_logging_never_overruns (toLocal : Z -> Z)
  (calls : list (nat * list action)) (maxLen : nat) (s : state) :
  Forall line_ok (dbglines s) ->
  forallb quiet calls = true ->
  Forall2 (fun chunk call => (List.length chunk <= fst call)%nat)
    (snd (chunked_live toLocal calls 0 s)) calls
  /\ snd (cb_logging maxLen 0 (set_dbglines [] s)) = [].
Proof.
  intros _ _. split.
  - generalize 0%nat as filled. revert s.
    induction calls as [|[m acts] calls IH]; intros s filled;
      cbn [chunked_live]; [constructor|].
    assert (List.length (snd (cb_logging m filled s)) <= m)%nat as Hlen.
    { unfold cb_logging.
      pose proof (cb_while_length m (dbglines s)
                    (if Nat.eqb filled 0
                     then mkCb 0 (List.length (dbglines s)) [] 0 else cb s) [])
        as H.
      destruct (cb_while _ _ _ _) as [c1 out]. cbn [snd List.length] in *. lia. }
    destruct (cb_logging m filled s) as [s1 chunk]. cbn [snd] in Hlen.
    specialize (IH (steps toLocal acts s1) (filled + List.length chunk)%nat).
    destruct (chunked_live toLocal calls _ (steps toLocal acts s1)) as [s3 chunks].
    cbn [snd] in *. constructor; [exact Hlen | exact IH].
  - destruct maxLen; reflexivity.
Qed.

Lemma cb_logging_never_overruns_witness :
  Forall2 (fun chunk call => (List.length chunk <= fst call)%nat)
    (snd (chunked_live cet
            [(0, []); (30, [DoGetconf 9000]); (30, [DoLogging 9000; DoTimer]);
             (30, [])]%nat
            0 two_lines))
    [(0, []); (30, [DoGetconf 9000]); (30, [DoLogging 9000; DoTimer]);
     (30, [])]%nat.
Proof.
  destruct (cb_logging_never_overruns cet
              [(0, []); (30, [DoGetconf 9000]); (30, [DoLogging 9000; DoTimer]);
               (30, [])]%nat 0 two_lines) as [H _].
  - unfold two_lines. apply reachable_lines_ok.
  - reflexivity.
  - exact H.
Defined.

(** X17: a pass over the log delivers the lines that were stored when its
    first call came, also when passes of [loop], timer ticks and other
    requests add lines between its calls: the chunks are the stream of
    those first lines cut at the offered sizes. *)
Theorem log_pass_is_a_snapshot (toLocal : Z -> Z) (m : nat)
  (acts : list action) (calls : list (nat * list action)) (s : state) :
  Forall line_ok (dbglines s) ->
  dbglines s <> [] ->
  (0 < m)%nat ->
  forallb quiet ((m, acts) :: calls) = true ->
  snd (chunked_live toLocal ((m, acts) :: calls) 0 s)
  = slices (m :: map fst calls) (log_stream (dbglines s)).
Proof.
  intros Hlines Hne Hm Hq.
  cbn [forallb] in Hq. apply andb_prop in Hq as [Hq1 Hq2].
  unfold quiet in Hq1. cbn [snd] in Hq1. apply negb_true_iff in Hq1.
  destruct (cb_logging_spec m 0 s Hlines) as (Hout & Hdbg & Hok & Hrem);
    [intros H; now elim H|].
  cbn [chunked_live slices]. cbn [skipn] in Hout.
  destruct (cb_logging m 0 s) as [s1 chunk]. cbn [fst snd] in *.
  destruct (steps_keep_cb toLocal acts s1 Hq1) as (Ecb & new & Enew).
  pose proof (log_stream_nonempty _ Hne) as Hpos.
  assert (0 < List.length chunk)%nat as Hc.
  { rewrite Hout, length_firstn. lia. }
  pose proof (chunked_live_spec toLocal (dbglines s) calls Hlines Hq2
                (0 + List.length chunk)%nat (steps toLocal acts s1) new) as H.
  destruct (chunked_live toLocal calls _ (steps toLocal acts s1)) as [s3 chunks].
  cbn [snd] in *. rewrite H.
  - rewrite Hout at 1. f_equal.
    rewrite (skipn_firstn_length m), <- Hout. reflexivity.
  - now rewrite Enew, Hdbg.
  - lia.
  - now rewrite Ecb.
  - now rewrite Ecb.
Qed.

Lemma log_pass_is_a_snapshot_witness :
  map (@List.length ascii)
    (snd (chunked_live cet
            [(30, [DoGetconf 9000]); (30, [DoLogging 9000; DoTimer]); (30, [])]%nat
            0 two_lines))
  = [30; 30; 4]%nat.
Proof.
  rewrite (log_pass_is_a_snapshot cet 30 [DoGetconf 9000]
             [(30, [DoLogging 9000; DoTimer]); (30, [])]%nat two_lines).
  - reflexivity.
  - unfold two_lines. apply reachable_lines_ok.
  - discriminate.
  - lia.
  - reflexivity.
Defined.

(** ** The test page *)

Section TestPage.

Import WString.

Lemma length_utoa_aux (fuel : nat) :
  forall n, (String.length (utoa_aux fuel n "") <= fuel)%nat.
Proof.
  induction fuel as [|f IH]; intros n; [apply Nat.le_refl|].
  rewrite utoa_aux_step. destruct (n / 10 =? 0); [cbn; lia|].
  rewrite utoa_aux_acc, length_append. specialize (IH (n / 10)). cbn. lia.
Qed.

Lemma length_ltoa (v : Z) : (String.length (ltoa v) <= 11)%nat.
Proof.
  unfold ltoa, utoa. destruct (v <? 0); cbn [String.length].
  - pose proof (length_utoa_aux 10 (- v)). lia.
  - pose proof (length_utoa_aux 10 v). lia.
Qed.

End TestPage.

(** X18: the reply of the test page, "Free memory is " and the number, is at
    most 26 characters long for every value of the free heap, so with its
    terminator it fits the 32 bytes of [reply]; the handler changes nothing
    but the log. *)
Theorem handle_test_reply_fits (heap heap' : Z) (s : state) :
  (String.length (body_of (snd (handle_test heap heap' s))) + 1 <= 32)%nat
  /\ logs s (fst (handle_test heap heap' s)).
Proof.
  unfold handle_test. cbn [snd fst body_of]. split; [|apply dbgprint_logs].
  rewrite length_append. pose proof (length_ltoa (to_int32 heap)).
  cbn [String.length]. lia.
Qed.
